(** * tex_parser.file.file_system : the [FileSystem] gateway

    A shallow embedding of [src/tex_parser/file/file_system.py].

    The class is a thin wrapper around the Python standard library
    ([os], [os.path], [shutil], [datetime], [bytes.decode]).  The file is
    organised as follows.

    - [Python]   : exceptions, outcomes and the state-and-exception monad
                   in which every method of the class runs.
    - [Utf8]     : the strict UTF-8 codec ([bytes.decode('utf-8')]).
    - [Datetime] : [int(float)], [datetime.fromtimestamp(_, utc)] and
                   [isoformat()].
    - [OS]       : the file-system state and the primitives of [os],
                   [os.path], [shutil] and [open] that the class calls.
    - [FileSystem] : the nine static methods, statement by statement.

    Modelling decisions, all about the environment (none about the class):

    - A path is the list of the components of an absolute, normalised
      path; the empty list is the root directory.  [os.path.join root f]
      appends a component, [os.path.relpath] is the component-wise
      algorithm of [posixpath.relpath].
    - A file-system object is a regular file (bytes and a modification
      time), a directory (named entries) or a special object (FIFO,
      socket, device node): something that exists, but is neither a
      regular file nor a directory.  The trees are trees without
      symbolic links; permissions, quotas, the limit on the length of
      a whole path and concurrent processes are not part of the state.
    - A name that holds a NUL byte or is longer than 255 bytes names
      nothing: no path through it resolves and no directory can be
      created under it.  The directories of a real tree bind every
      name once ([wf]) and bind no such name ([good_names]); theorems
      that need either say so.
    - The modification time of a file is the exact time on disk, in
      seconds.  [os.stat] reports it as [st_mtime], the float that
      CPython computes from the seconds and nanoseconds in two rounded
      binary64 operations; the floats that occur are handled as the
      rationals they are.
    - [datetime.fromtimestamp] fails as it does on Linux with glibc and
      a 64-bit [time_t].
    - Exception messages are dropped; an exception is its class. *)

From Stdlib Require Import List String Ascii ZArith QArith Bool Lia.
From Stdlib.Strings Require Import Byte.
Import ListNotations.

Local Open Scope Z_scope.

(* ================================================================== *)
(** * Python: exceptions and the method monad *)

Module Python.

(** The exception classes that can reach the class under study.
    [DatetimeRangeError] stands for the [ValueError] / [OverflowError]
    that [datetime.fromtimestamp] raises outside years 1..9999. *)
Inductive exn : Type :=
| FileNotFoundError
| FileExistsError
| NotADirectoryError
| IsADirectoryError
| OSError
| UnicodeDecodeError
| DatetimeRangeError
| ValueError.

(** [isinstance(e, OSError)]: the first four classes derive from
    [OSError]. *)
Definition isinstance_OSError (e : exn) : bool :=
  match e with
  | FileNotFoundError | FileExistsError
  | NotADirectoryError | IsADirectoryError | OSError => true
  | UnicodeDecodeError | DatetimeRangeError | ValueError => false
  end.

(** [isinstance(e, ValueError)]. *)
Definition isinstance_ValueError (e : exn) : bool :=
  match e with
  | UnicodeDecodeError | DatetimeRangeError | ValueError => true
  | _ => false
  end.

Definition isinstance_UnicodeDecodeError (e : exn) : bool :=
  match e with
  | UnicodeDecodeError => true
  | _ => false
  end.

Inductive outcome (A : Type) : Type :=
| Return (a : A)
| Raise (e : exn).
Arguments Return {A} a.
Arguments Raise {A} e.

Section Monad.
(** The monad is parametric in the state a call can read and mutate. *)
Context {S : Type}.

Definition py (A : Type) : Type := S -> outcome A * S.

Definition ret {A} (a : A) : py A := fun s => (Return a, s).

Definition raise {A} (e : exn) : py A := fun s => (Raise e, s).

Definition bind {A B} (m : py A) (k : A -> py B) : py B :=
  fun s =>
    match m s with
    | (Return a, s') => k a s'
    | (Raise e, s') => (Raise e, s')
    end.

(** [try: m  except: h e] where [h] re-raises what it does not
    handle.  State changes made before the exception persist. *)
Definition try_except {A} (m : py A) (h : exn -> py A) : py A :=
  fun s =>
    match m s with
    | (Return a, s') => (Return a, s')
    | (Raise e, s') => h e s'
    end.

(** A call that leaves the state as it found it, however it ends. *)
Definition frame {A} (m : py A) : Prop := forall s, snd (m s) = s.

(** Lifting of a pure computation that may raise. *)
Definition lift {A} (o : outcome A) : py A := fun s => (o, s).

(** [[x for x in xs if f x]] with an effectful condition. *)
Fixpoint filterM {A} (f : A -> py bool) (xs : list A) : py (list A) :=
  match xs with
  | [] => ret []
  | x :: xs' =>
      bind (f x) (fun keep =>
      bind (filterM f xs') (fun rest =>
      ret (if keep then x :: rest else rest)))
  end.
End Monad.

Arguments py : clear implicits.

End Python.

Import Python.

Declare Scope py_scope.
Delimit Scope py_scope with py.
Notation "x <- m ;; k" := (bind m (fun x => k))
  (at level 61, m at next level, right associativity) : py_scope.
Notation "m ;;; k" := (bind m (fun _ => k))
  (at level 61, right associativity) : py_scope.

(* ================================================================== *)
(** * Utf8: the strict UTF-8 codec *)

Module Utf8.

(** Bytes are handled as integers in 0..255. *)
Definition Z_of_byte (b : byte) : Z := Z.of_N (Byte.to_N b).

Definition is_continuation_byte (ch : Z) : bool :=
  (0x80 <=? ch) && (ch <? 0xC0).

(** [bytes.decode('utf-8')] in strict mode, after CPython's
    [utf8_decode]: dispatch on the lead byte, reject lead bytes 80..C1
    and F5..FF, overlong forms (E0 followed by less than A0, F0
    followed by less than 90), surrogates (ED followed by A0 or more),
    code points above 10FFFF (F4 followed by 90 or more), bad
    continuation bytes and truncated sequences.  [None] is the
    [UnicodeDecodeError]; [Some] carries the decoded code points. *)
Fixpoint utf8_decode (s : list Z) : option (list Z) :=
  match s with
  | [] => Some []
  | ch :: s1 =>
      if ch <? 0x80 then
        option_map (cons ch) (utf8_decode s1)
      else if ch <? 0xE0 then
        if ch <? 0xC2 then None
        else
          match s1 with
          | ch2 :: s2 =>
              if is_continuation_byte ch2
              then option_map
                     (cons (ch * 64 + ch2 - (0xC0 * 64 + 0x80)))
                     (utf8_decode s2)
              else None
          | _ => None
          end
      else if ch <? 0xF0 then
        match s1 with
        | ch2 :: ch3 :: s3 =>
            if (ch =? 0xE0) && (ch2 <? 0xA0) then None
            else if (ch =? 0xED) && (0xA0 <=? ch2) then None
            else if is_continuation_byte ch2 && is_continuation_byte ch3
            then option_map
                   (cons (ch * 4096 + ch2 * 64 + ch3
                          - (0xE0 * 4096 + 0x80 * 64 + 0x80)))
                   (utf8_decode s3)
            else None
        | _ => None
        end
      else if ch <? 0xF5 then
        match s1 with
        | ch2 :: ch3 :: ch4 :: s4 =>
            if (ch =? 0xF0) && (ch2 <? 0x90) then None
            else if (ch =? 0xF4) && (0x90 <=? ch2) then None
            else if is_continuation_byte ch2 && is_continuation_byte ch3
                    && is_continuation_byte ch4
            then option_map
                   (cons (ch * 262144 + ch2 * 4096 + ch3 * 64 + ch4
                          - (0xF0 * 262144 + 0x80 * 4096
                             + 0x80 * 64 + 0x80)))
                   (utf8_decode s4)
            else None
        | _ => None
        end
      else None
  end.

(** The reference notion of validity used in the statements: a byte
    string is valid UTF-8 when it is the encoding (RFC 3629) of a
    sequence of Unicode scalar values. *)
Definition scalar_value (cp : Z) : Prop :=
  0 <= cp < 0xD800 \/ 0xE000 <= cp <= 0x10FFFF.

Definition encode_char (cp : Z) : list Z :=
  if cp <? 0x80 then [cp]
  else if cp <? 0x800 then
    [0xC0 + cp / 64; 0x80 + cp mod 64]
  else if cp <? 0x10000 then
    [0xE0 + cp / 4096; 0x80 + (cp / 64) mod 64; 0x80 + cp mod 64]
  else
    [0xF0 + cp / 262144; 0x80 + (cp / 4096) mod 64;
     0x80 + (cp / 64) mod 64; 0x80 + cp mod 64].

Definition utf8_encode (cps : list Z) : list Z := flat_map encode_char cps.

Definition valid_utf8 (raw : list byte) : Prop :=
  exists cps, Forall scalar_value cps /\ map Z_of_byte raw = utf8_encode cps.

Definition is_byte (b : Z) : Prop := 0 <= b < 256.

End Utf8.

(* ================================================================== *)
(** * Datetime: [int], [datetime.fromtimestamp(_, timezone.utc)], [isoformat] *)

Module Datetime.

(** [int(x)] on a float: truncation toward zero. *)
Definition int_of_float (x : Q) : Z := Z.quot (Qnum x) (Z.pos (Qden x)).

(** ** The float [os.stat] reports for a time on disk *)

(** Division rounded to the nearest integer, ties to even; [d] is
    positive. *)
Definition round_half_even (n d : Z) : Z :=
  let q := n / d in
  let r := n mod d in
  if 2 * r <? d then q
  else if d <? 2 * r then q + 1
  else if Z.even q then q else q + 1.

(** Rounding of an integer to 53 significant bits, to nearest, ties to
    even: binary64 rounding of [n * 2^k] is [round53 n * 2^k] for every
    scale [k] in the range of normal numbers. *)
Definition round53 (n : Z) : Z :=
  let a := Z.abs n in
  if a <? 2 ^ 53 then n
  else
    let s := Z.log2 a - 52 in
    Z.sgn n * (round_half_even a (2 ^ s) * 2 ^ s).

(** The double [1e-9] is [ONE_E_MINUS_9 / 2^82]. *)
Definition ONE_E_MINUS_9 : Z := 4835703278458517.

(** [sec + 1e-9*nsec] in C doubles, as [fill_time] of CPython computes
    [st_mtime]: the product is rounded, then the sum.  The result is a
    numerator over [2^82]. *)
Definition float_seconds_num (sec nsec : Z) : Z :=
  round53 (round53 sec * 2 ^ 82 + round53 (ONE_E_MINUS_9 * nsec)).

Definition float_seconds (sec nsec : Z) : Q :=
  float_seconds_num sec nsec # (2 ^ 82).

(** Whole seconds and nanoseconds of a time on disk: the seconds are
    the floor, the nanoseconds count from there. *)
Definition tv_sec (t : Q) : Z := Qnum t / Z.pos (Qden t).

Definition tv_nsec (t : Q) : Z :=
  (Qnum t mod Z.pos (Qden t)) * 1000000000 / Z.pos (Qden t).

Definition st_mtime_of (t : Q) : Q := float_seconds (tv_sec t) (tv_nsec t).

(** An aware datetime in UTC with [microsecond = 0]. *)
Record datetime : Type := mk_datetime
  { year : Z; month : Z; day : Z; hour : Z; minute : Z; second : Z }.

Definition MINYEAR : Z := 1.
Definition MAXYEAR : Z := 9999.

Definition DI400Y : Z := 146097.
Definition DI100Y : Z := 36524.
Definition DI4Y : Z := 1461.

Definition DAYS_IN_MONTH (m : Z) : Z :=
  match m with
  | 1 => 31 | 2 => 28 | 3 => 31 | 4 => 30 | 5 => 31 | 6 => 30
  | 7 => 31 | 8 => 31 | 9 => 30 | 10 => 31 | 11 => 30 | 12 => 31
  | _ => -1
  end.

Definition DAYS_BEFORE_MONTH (m : Z) : Z :=
  match m with
  | 1 => 0 | 2 => 31 | 3 => 59 | 4 => 90 | 5 => 120 | 6 => 151
  | 7 => 181 | 8 => 212 | 9 => 243 | 10 => 273 | 11 => 304 | 12 => 334
  | _ => -1
  end.

Definition is_leap (y : Z) : bool :=
  (y mod 4 =? 0) && (negb (y mod 100 =? 0) || (y mod 400 =? 0)).

Definition Z_of_bool (b : bool) : Z := if b then 1 else 0.

(** [_ord2ymd]: proleptic Gregorian ordinal (0001-01-01 is day 1) to
    (year, month, day). *)
Definition ord2ymd (ordinal : Z) : Z * Z * Z :=
  let n := ordinal - 1 in
  let n400 := n / DI400Y in
  let n := n mod DI400Y in
  let y := n400 * 400 + 1 in
  let n100 := n / DI100Y in
  let n := n mod DI100Y in
  let n4 := n / DI4Y in
  let n := n mod DI4Y in
  let n1 := n / 365 in
  let n := n mod 365 in
  let y := y + n100 * 100 + n4 * 4 + n1 in
  if (n1 =? 4) || (n100 =? 4) then (y - 1, 12, 31)
  else
    let leapyear := (n1 =? 3) && (negb (n4 =? 24) || (n100 =? 3)) in
    let m := Z.shiftr (n + 50) 5 in
    let preceding :=
      DAYS_BEFORE_MONTH m + Z_of_bool ((2 <? m) && leapyear) in
    if n <? preceding then
      let m := m - 1 in
      let preceding :=
        preceding
        - (DAYS_IN_MONTH m + Z_of_bool ((m =? 2) && leapyear)) in
      (y, m, n - preceding + 1)
    else (y, m, n - preceding + 1).

(** The last step of [ord2ymd] on its own: month and day of the
    zero-based day [n] of a year. *)
Definition month_day (n : Z) (leapyear : bool) : Z * Z :=
  let m := Z.shiftr (n + 50) 5 in
  let preceding := DAYS_BEFORE_MONTH m + Z_of_bool ((2 <? m) && leapyear) in
  if n <? preceding then
    let m := m - 1 in
    let preceding :=
      preceding - (DAYS_IN_MONTH m + Z_of_bool ((m =? 2) && leapyear)) in
    (m, n - preceding + 1)
  else (m, n - preceding + 1).

(** Ordinal of 1970-01-01. *)
Definition EPOCH_ORDINAL : Z := 719163.

(** [datetime.fromtimestamp(t, timezone.utc)] for an integer [t]: the
    conversion to [time_t] ([OverflowError] beyond 64 bits), [gmtime]
    ([OSError] with [EOVERFLOW] when the year does not fit the C [int]
    field [tm_year]), then the year-range check of the constructor
    ([ValueError]).  [DatetimeRangeError] is the [OverflowError] and
    the [ValueError]. *)
Definition fromtimestamp_utc (t : Z) : outcome datetime :=
  if negb ((- 2 ^ 63 <=? t) && (t <? 2 ^ 63)) then Raise DatetimeRangeError
  else
    let days := t / 86400 in
    let secs := t mod 86400 in
    let '(y, m, d) := ord2ymd (days + EPOCH_ORDINAL) in
    if negb ((- 2 ^ 31 <=? y - 1900) && (y - 1900 <? 2 ^ 31))
    then Raise OSError
    else if (MINYEAR <=? y) && (y <=? MAXYEAR)
    then Return (mk_datetime y m d (secs / 3600) ((secs mod 3600) / 60)
                             (secs mod 60))
    else Raise DatetimeRangeError.

Definition digit (d : Z) : string :=
  String (ascii_of_N (48 + Z.to_N d)) EmptyString.

(** ["%02d"] and ["%04d"] on the ranges a datetime's fields live in. *)
Definition pad2 (n : Z) : string :=
  (digit (n / 10) ++ digit (n mod 10))%string.

Definition pad4 (n : Z) : string :=
  (digit (n / 1000) ++ digit ((n / 100) mod 10)
   ++ digit ((n / 10) mod 10) ++ digit (n mod 10))%string.

(** [isoformat()] of an aware UTC datetime with zero microseconds. *)
Definition isoformat (dt : datetime) : string :=
  (pad4 (year dt) ++ "-" ++ pad2 (month dt) ++ "-" ++ pad2 (day dt)
   ++ "T" ++ pad2 (hour dt) ++ ":" ++ pad2 (minute dt) ++ ":"
   ++ pad2 (second dt) ++ "+00:00")%string.

(** Reference calendar arithmetic used in the statements: the number
    of seconds since the epoch denoted by a civil date and time. *)
Definition days_in_month (y m : Z) : Z :=
  if (m =? 2) && is_leap y then 29 else DAYS_IN_MONTH m.

Definition days_before_year (y : Z) : Z :=
  let y' := y - 1 in y' * 365 + y' / 4 - y' / 100 + y' / 400.

Definition days_before_month (y m : Z) : Z :=
  fold_right Z.add 0
    (map (fun k => days_in_month y (Z.of_nat k)) (seq 1 (Z.to_nat m - 1))).

Definition ymd2ord (y m d : Z) : Z :=
  days_before_year y + days_before_month y m + d.

Definition timegm (dt : datetime) : Z :=
  (ymd2ord (year dt) (month dt) (day dt) - EPOCH_ORDINAL) * 86400
  + hour dt * 3600 + minute dt * 60 + second dt.

Definition valid_datetime (dt : datetime) : Prop :=
  MINYEAR <= year dt <= MAXYEAR /\
  1 <= month dt <= 12 /\
  1 <= day dt <= days_in_month (year dt) (month dt) /\
  0 <= hour dt < 24 /\ 0 <= minute dt < 60 /\ 0 <= second dt < 60.

(** Checker for [month_day] on one day of a year. *)
Definition month_day_ok (leapyear : bool) (k : nat) : bool :=
  let n := Z.of_nat k in
  let '(m, d) := month_day n leapyear in
  (1 <=? m) && (m <=? 12) && (1 <=? d)
  && (d <=? (if (m =? 2) && leapyear then 29 else DAYS_IN_MONTH m))
  && (DAYS_BEFORE_MONTH m + Z_of_bool ((2 <? m) && leapyear) + d =? n + 1).

(** The timestamps [fromtimestamp_utc] accepts:
    0001-01-01T00:00:00 to 9999-12-31T23:59:59. *)
Definition MIN_TIMESTAMP : Z := -62135596800.
Definition MAX_TIMESTAMP : Z := 253402300799.

End Datetime.

(* ================================================================== *)
(** * OS: the file-system state and the library calls on it *)

Module OS.

Definition path : Type := list string.

(** A file-system object.  [Special] is any object that is neither a
    regular file nor a directory (FIFO, socket, device node). *)
#[warnings="-register-all"] Inductive node : Type :=
| File (content : list byte) (mtime : Q)
| Special
| Dir (entries : list (string * node)).

Definition directory : Type := list (string * node).

(** The state: the entries of the root directory. *)
Definition filesystem : Type := directory.

Definition is_dir_node (n : node) : bool :=
  match n with Dir _ => true | _ => false end.

Definition is_file_node (n : node) : bool :=
  match n with File _ _ => true | _ => false end.

Fixpoint assoc (name : string) (es : directory) : option node :=
  match es with
  | [] => None
  | (n, x) :: es' => if String.eqb n name then Some x else assoc name es'
  end.

(** Replace the object bound to [name]. *)
Fixpoint set_entry (name : string) (x : node) (es : directory) : directory :=
  match es with
  | [] => []
  | (n, y) :: es' =>
      if String.eqb n name then (n, x) :: es'
      else (n, y) :: set_entry name x es'
  end.

Definition del_entry (name : string) (es : directory) : directory :=
  filter (fun e => negb (String.eqb (fst e) name)) es.

(** Names no object can have: one with a NUL byte (the call raises
    [ValueError] before it reaches the system) and one longer than
    [NAME_MAX] bytes ([ENAMETOOLONG]). *)
Fixpoint has_nul (s : string) : bool :=
  match s with
  | EmptyString => false
  | String c s' => Ascii.eqb c Ascii.zero || has_nul s'
  end.

Definition NAME_MAX : nat := 255.

Definition bad_name (s : string) : bool :=
  has_nul s || (NAME_MAX <? String.length s)%nat.

Definition name_error (s : string) : exn :=
  if has_nul s then ValueError else OSError.

(** Every component is a name an object can have. *)
Definition valid_path (p : path) : bool :=
  forallb (fun s => negb (bad_name s)) p.

(** Path resolution, with the ways it fails: a name that cannot be, a
    missing component (ENOENT) or a component below something that is
    not a directory (ENOTDIR).  Of several defects of a path the first
    on the way from the root is the one reported. *)
Fixpoint resolve (es : directory) (p : path) : exn + node :=
  match p with
  | [] => inr (Dir es)
  | name :: rest =>
      if bad_name name then inl (name_error name)
      else
        match assoc name es with
        | None => inl FileNotFoundError
        | Some (Dir es') => resolve es' rest
        | Some n =>
            match rest with
            | [] => inr n
            | _ :: _ => inl NotADirectoryError
            end
        end
  end.

Definition lookup (fs : filesystem) (p : path) : option node :=
  match resolve fs p with
  | inr n => Some n
  | inl _ => None
  end.

(** An object without what is below it: what a single [stat] and
    [read] can tell about a path. *)
Definition shallow (n : node) : node :=
  match n with
  | Dir _ => Dir []
  | _ => n
  end.

Definition observe (fs : filesystem) (p : path) : option node :=
  option_map shallow (lookup fs p).


(** Every directory binds a name at most once. *)
Fixpoint wf_node (n : node) : Prop :=
  match n with
  | Dir es =>
      NoDup (map fst es) /\
      fold_right (fun e acc => wf_node (snd e) /\ acc) True es
  | _ => True
  end.

Definition wf (fs : filesystem) : Prop := wf_node (Dir fs).

(** No directory of the tree binds a name that no object can have. *)
Fixpoint good_names (n : node) : Prop :=
  match n with
  | Dir es =>
      fold_right
        (fun e acc => bad_name (fst e) = false /\ good_names (snd e) /\ acc)
        True es
  | _ => True
  end.

(** ** [os.stat] and [os.path] *)

Inductive kind : Type := S_IFREG | S_IFDIR | S_IFOTHER.

(** Size and time of objects other than regular files are not
    tracked; no method reads them.  The time of a regular file is
    reported as the float computed from the time on disk. *)
Record stat_result : Type := mk_stat
  { st_mode : kind; st_size : Z; st_mtime : Q }.

Definition stat_of (n : node) : stat_result :=
  match n with
  | File content mtime =>
      mk_stat S_IFREG (Z.of_nat (List.length content))
              (Datetime.st_mtime_of mtime)
  | Dir _ => mk_stat S_IFDIR 0 0%Q
  | Special => mk_stat S_IFOTHER 0 0%Q
  end.

Definition os_stat (p : path) : py filesystem stat_result :=
  fun fs =>
    match resolve fs p with
    | inr n => (Return (stat_of n), fs)
    | inl e => (Raise e, fs)
    end.

(** [genericpath.isfile]: [os.stat], any [OSError] or [ValueError]
    means [False]. *)
Definition os_path_isfile (p : path) : py filesystem bool :=
  try_except
    (st <- os_stat p ;;
     ret match st_mode st with S_IFREG => true | _ => false end)%py
    (fun e => if isinstance_OSError e || isinstance_ValueError e
              then ret false else raise e).

Definition os_path_isdir (p : path) : py filesystem bool :=
  try_except
    (st <- os_stat p ;;
     ret match st_mode st with S_IFDIR => true | _ => false end)%py
    (fun e => if isinstance_OSError e || isinstance_ValueError e
              then ret false else raise e).

Definition os_path_exists (p : path) : py filesystem bool :=
  try_except
    (os_stat p ;;; ret true)%py
    (fun e => if isinstance_OSError e || isinstance_ValueError e
              then ret false else raise e).

Definition os_path_getsize (p : path) : py filesystem Z :=
  (st <- os_stat p ;; ret (st_size st))%py.

Definition os_path_join (root : path) (name : string) : path :=
  root ++ [name].

Fixpoint commonprefix (a b : path) : path :=
  match a, b with
  | x :: a', y :: b' =>
      if String.eqb x y then x :: commonprefix a' b' else []
  | _, _ => []
  end.

(** [posixpath.relpath] on component lists; the result is a relative
    path, again as its list of components. *)
Definition os_path_relpath (p start : path) : path :=
  let i := List.length (commonprefix start p) in
  let rel_list := repeat ".."%string (List.length start - i) ++ skipn i p in
  match rel_list with
  | [] => ["."%string]
  | _ => rel_list
  end.

(** ** [os.mkdir], [os.makedirs] *)

Fixpoint mkdir_in (es : directory) (p : path) : exn + directory :=
  match p with
  | [] => inl FileExistsError
  | name :: rest =>
      if bad_name name then inl (name_error name)
      else
        match rest with
        | [] =>
            match assoc name es with
            | Some _ => inl FileExistsError
            | None => inr (es ++ [(name, Dir [])])
            end
        | _ :: _ =>
            match assoc name es with
            | None => inl FileNotFoundError
            | Some (Dir es') =>
                match mkdir_in es' rest with
                | inr es'' => inr (set_entry name (Dir es'') es)
                | inl e => inl e
                end
            | Some _ => inl NotADirectoryError
            end
        end
  end.

(** [os.mkdir]: a NUL byte anywhere in the path is refused before the
    system is asked. *)
Definition os_mkdir (p : path) : py filesystem unit :=
  fun fs =>
    if existsb has_nul p then (Raise ValueError, fs)
    else
      match mkdir_in fs p with
      | inr fs' => (Return tt, fs')
      | inl e => (Raise e, fs)
      end.

(** [os.makedirs(name, exist_ok=False)]: split off the last component,
    create the head first when it does not exist (a [FileExistsError]
    from that recursive call is ignored), then [mkdir] the leaf.  The
    recursion is on the components read from the leaf upwards. *)
Fixpoint makedirs_rev (rname : list string) : py filesystem unit :=
  match rname with
  | [] => os_mkdir []
  | _ :: rhead =>
      (head_exists <- os_path_exists (rev rhead) ;;
       (if negb head_exists
        then try_except (makedirs_rev rhead)
               (fun e => match e with
                         | FileExistsError => ret tt
                         | _ => raise e
                         end)
        else ret tt) ;;;
       os_mkdir (rev rname))%py
  end.

Definition os_makedirs (name : path) : py filesystem unit :=
  makedirs_rev (rev name).

(** The nested empty directories [name1/name2/...]. *)
Fixpoint chain (p : path) : directory :=
  match p with
  | [] => []
  | name :: rest => [(name, Dir (chain rest))]
  end.

(** The state [os.makedirs p] ends in when it succeeds: the missing
    tail of [p] is grafted where resolution stops. *)
Fixpoint mkdirs_in (es : directory) (p : path) : directory :=
  match p with
  | [] => es
  | name :: rest =>
      match assoc name es with
      | None => es ++ [(name, Dir (chain rest))]
      | Some (Dir es') => set_entry name (Dir (mkdirs_in es' rest)) es
      | Some _ => es
      end
  end.

(** ** [shutil.rmtree] *)

(** The state once the tree at [p] is gone. *)
Fixpoint remove_in (es : directory) (p : path) : directory :=
  match p with
  | [] => []
  | name :: rest =>
      match rest with
      | [] => del_entry name es
      | _ :: _ =>
          match assoc name es with
          | Some (Dir es') => set_entry name (Dir (remove_in es' rest)) es
          | _ => es
          end
      end
  end.

(** [shutil.rmtree(p)]: a directory tree is deleted bottom-up; on the
    root the contents go and the final [rmdir] fails. *)
Definition shutil_rmtree (p : path) : py filesystem unit :=
  fun fs =>
    match resolve fs p with
    | inl e => (Raise e, fs)
    | inr (Dir _) =>
        match p with
        | [] => (Raise OSError, remove_in fs p)
        | _ :: _ => (Return tt, remove_in fs p)
        end
    | inr _ => (Raise NotADirectoryError, fs)
    end.

(** ** [os.listdir], [os.walk], [open(...).read()] *)

Definition os_listdir (p : path) : py filesystem (list string) :=
  fun fs =>
    match resolve fs p with
    | inr (Dir es) => (Return (map fst es), fs)
    | inr _ => (Raise NotADirectoryError, fs)
    | inl e => (Raise e, fs)
    end.

Definition dirnames (es : directory) : list string :=
  map fst (filter (fun e => is_dir_node (snd e)) es).

(** [os.walk] sorts every entry that is not a directory into the
    file names. *)
Definition filenames (es : directory) : list string :=
  map fst (filter (fun e => negb (is_dir_node (snd e))) es).

(** [os.walk(top)], top-down, [onerror=None]: one triple
    (dirpath, dirnames, filenames) per directory of the tree. *)
Fixpoint walk_node (top : path) (n : node)
  : list (path * list string * list string) :=
  match n with
  | Dir es =>
      (top, dirnames es, filenames es)
      :: flat_map (fun e => walk_node (os_path_join top (fst e)) (snd e)) es
  | _ => []
  end.

Definition os_walk (top : path)
  : py filesystem (list (path * list string * list string)) :=
  fun fs =>
    match resolve fs top with
    | inr n => (Return (walk_node top n), fs)
    | inl _ => (Return [], fs)
    end.

(** The relative paths of everything below [n] that is not a
    directory, in the order [os.walk] reports them. *)
Fixpoint rel_files (n : node) : list path :=
  match n with
  | Dir es =>
      map (fun f => [f]) (filenames es)
      ++ flat_map (fun e => map (cons (fst e)) (rel_files (snd e))) es
  | _ => []
  end.

(** [with open(p, 'rb') as file: file.read()]. *)
Definition open_read (p : path) : py filesystem (list byte) :=
  fun fs =>
    match resolve fs p with
    | inr (File content _) => (Return content, fs)
    | inr (Dir _) => (Raise IsADirectoryError, fs)
    | inr Special => (Raise OSError, fs)
    | inl e => (Raise e, fs)
    end.

End OS.

(* ================================================================== *)
(** * FileSystem: the class *)

Module FileSystem.
Import OS.

Local Open Scope py_scope.

Definition is_file (file_path : path) : py filesystem bool :=
  is_file_found <- os_path_isfile file_path ;;
  ret is_file_found.

Definition is_directory (directory_path : path) : py filesystem bool :=
  is_directory_found <- os_path_isdir directory_path ;;
  ret is_directory_found.

Definition is_object (path : path) : py filesystem bool :=
  is_present <- os_path_exists path ;;
  ret is_present.

Definition get_file_size (file_path : path) : py filesystem Z :=
  is_file_found <- is_file file_path ;;
  if negb is_file_found then raise FileNotFoundError
  else
    file_size <- os_path_getsize file_path ;;
    ret file_size.

Definition create_directory (directory_path : path) : py filesystem unit :=
  is_present <- is_object directory_path ;;
  if is_present then raise FileExistsError
  else
    try_except (os_makedirs directory_path)
      (fun exception_msg =>
         if isinstance_OSError exception_msg then raise OSError
         else raise exception_msg).

Definition remove_directory (directory_path : path) : py filesystem unit :=
  is_dir <- is_directory directory_path ;;
  if negb is_dir then raise FileNotFoundError
  else
    try_except (shutil_rmtree directory_path)
      (fun exception_msg =>
         if isinstance_OSError exception_msg then raise OSError
         else raise exception_msg).

Definition get_file_timestamp (file_path : path) : py filesystem string :=
  is_file_found <- is_file file_path ;;
  if negb is_file_found then raise FileNotFoundError
  else
    st <- os_stat file_path ;;
    let last_modified_timestamp_seconds :=
      Datetime.int_of_float (st_mtime st) in
    dt <- lift (Datetime.fromtimestamp_utc last_modified_timestamp_seconds) ;;
    let timestamp_iso := Datetime.isoformat dt in
    ret timestamp_iso.

Definition bytes_decode_utf8 (raw_data : list byte)
  : py filesystem (list Z) :=
  match Utf8.utf8_decode (map Utf8.Z_of_byte raw_data) with
  | Some text => ret text
  | None => raise UnicodeDecodeError
  end.

Definition is_utf8_encoded (file_path : path) : py filesystem bool :=
  is_file_found <- is_file file_path ;;
  if negb is_file_found then raise FileNotFoundError
  else
    is_utf8 <-
      try_except
        (raw_data <- open_read file_path ;;
         bytes_decode_utf8 raw_data ;;;
         ret true)
        (fun e => if isinstance_UnicodeDecodeError e then ret false
                  else raise e) ;;
    ret is_utf8.

(** A returned name is a relative path of one component. *)
Definition list_files (directory_path : path) (include_subdirectories : bool)
  : py filesystem (list path) :=
  is_valid_directory <- is_directory directory_path ;;
  if negb is_valid_directory then raise FileNotFoundError
  else
    if include_subdirectories then
      triples <- os_walk directory_path ;;
      ret (flat_map
             (fun '(root, _, files) =>
                map (fun file =>
                       let full_path := os_path_join root file in
                       let relative_path :=
                         os_path_relpath full_path directory_path in
                       relative_path)
                    files)
             triples)
    else
      names <- os_listdir directory_path ;;
      filename_list <-
        filterM (fun f => is_file (os_path_join directory_path f)) names ;;
      ret (map (fun f => [f]) filename_list).

(** The body of the loop of the recursive branch, on one triple of the
    walk. *)
Definition relative (directory_path : path)
  (triple : path * list string * list string) : list path :=
  let '(root, _, files) := triple in
  map (fun file => os_path_relpath (os_path_join root file) directory_path)
      files.

End FileSystem.

(* ================================================================== *)
(** * Fixtures: concrete states used in examples *)

Module Fixtures.
Import OS.

Local Open Scope string_scope.

(** The bytes of ["test data"]. *)
Definition test_data : list byte :=
  [x74; x65; x73; x74; x20; x64; x61; x74; x61].

(** Latin-1 ["caf\xe9"]: not UTF-8. *)
Definition latin1_sample : list byte := [x63; x61; x66; xe9].

(** The tree of [tests/file/fixtures], below [/fixtures]; next to it a
    directory holding a socket, and two files with unusual dates. *)
Definition fixtures : filesystem :=
  [("fixtures",
    Dir [("top_level_text_file.txt", File test_data 1682000000%Q);
         ("tex",
          Dir [("latex2e_example_non_utf8.tex", File latin1_sample 1682000000%Q);
               ("latex2e_example.tex", File test_data 1682000000%Q);
               ("latex209_example.tex", File test_data 1682000000%Q)]);
         ("txt",
          Dir [("non_utf8_sample.txt", File latin1_sample 1682000000%Q);
               ("text_file.txt", File test_data (3364000001 # 2))])]);
   ("run",
    Dir [("app.pid", File [x34; x32] 1682000000%Q);
         ("app.sock", Special)]);
   ("archive",
    Dir [("far_future.log", File [] 1000000000000%Q);
         ("before_epoch.log", File [] (-1 # 2))])].

Definition text_file : path := ["fixtures"; "txt"; "text_file.txt"].
Definition non_utf8_sample : path := ["fixtures"; "txt"; "non_utf8_sample.txt"].
Definition this_is_not_a_file : path := ["this_is_not_a_file"].
Definition tex_dir : path := ["fixtures"; "tex"].
Definition new_nested : path := ["fixtures"; "out"; "a"; "b"].
Definition run_dir : path := ["run"].
Definition fixtures_dir : path := ["fixtures"].

End Fixtures.

(* ================================================================== *)
(** * Conftest: the fixture of [tests/file/conftest.py] *)

Module Conftest.
Import OS.

(** How the fixture ends: with a directory, or with [RuntimeError]. *)
Inductive fixture_outcome : Type :=
| FixtureDir (p : path)
| RuntimeError.

(** [os.path.basename]: the last component, empty for the root. *)
Definition os_path_basename (p : path) : string := last p ""%string.

(** [os.path.dirname]: the path without its last component; the root
    is its own parent. *)
Definition os_path_dirname (p : path) : path := removelast p.

(** The [while True] loop of the fixture, with a bound on the number
    of iterations; [None] is the bound running out. *)
Fixpoint climb (fuel : nat) (path : path) : option fixture_outcome :=
  match fuel with
  | O => None
  | S fuel' =>
      if String.eqb (os_path_basename path) "tests"
      then Some (FixtureDir (path ++ ["file"; "fixtures"]%string))
      else
        let new_path := os_path_dirname path in
        if list_eq_dec string_dec new_path path
        then Some RuntimeError
        else climb fuel' new_path
  end.

(** [file_test_fixtures_directory], started in the directory [here] of
    the file that defines it.  Each iteration drops one component, so
    one more than their number is bound enough. *)
Definition file_test_fixtures_directory (here : path)
  : option fixture_outcome :=
  climb (S (List.length here)) here.

End Conftest.

(* ================================================================== *)
(** * Samples: further concrete states *)

Module Samples.
Import OS.

Local Open Scope string_scope.

(** UTF-16 text with its byte-order mark. *)
Definition utf16_sample : list byte := [xff; xfe; x68; x00; x69; x00].

(** ["caf"] and the first of the two bytes of an e with acute accent. *)
Definition cut_sample : list byte := [x63; x61; x66; xc3].

Definition samples : filesystem :=
  [("utf16.txt", File utf16_sample 0%Q); ("cut.txt", File cut_sample 0%Q)].

(** Two files written late in their second, a nanosecond before
    14:13:21 on 2023-04-20 and ten microseconds before the year
    10000, and one written half a second after 14:13:21. *)
Definition late_2023 : Q := 1682000000999999999 # 1000000000.
Definition late_9999 : Q := 25340230079999999 # 100000.
Definition next_2023 : Q := 3364000003 # 2.

Definition clock : filesystem :=
  [("late_2023.log", File [] late_2023); ("late_9999.log", File [] late_9999);
   ("next_2023.log", File [] next_2023)].



End Samples.

(* ================================================================== *)
(** * Properties *)

Import OS.

(** ** Proof automation *)

(** Linear arithmetic with division and remainder by constants. *)
Ltac dlia := Z.div_mod_to_equations; lia.

(** Boolean tests in hypotheses, as propositions. *)
Ltac bool_to_prop :=
  repeat match goal with
  | H : (_ && _)%bool = true |- _ => apply andb_true_iff in H; destruct H
  | H : (_ && _)%bool = false |- _ => apply andb_false_iff in H; destruct H
  | H : (_ || _)%bool = true |- _ => apply orb_true_iff in H; destruct H
  | H : (_ || _)%bool = false |- _ => apply orb_false_iff in H; destruct H
  | H : negb _ = true |- _ => apply negb_true_iff in H
  | H : negb _ = false |- _ => apply negb_false_iff in H
  | H : (_ <? _) = true |- _ => apply Z.ltb_lt in H
  | H : (_ <? _) = false |- _ => apply Z.ltb_ge in H
  | H : (_ <=? _) = true |- _ => apply Z.leb_le in H
  | H : (_ <=? _) = false |- _ => apply Z.leb_gt in H
  | H : (_ =? _) = true |- _ => apply Z.eqb_eq in H
  | H : (_ =? _) = false |- _ => apply Z.eqb_neq in H
  end.

Ltac split_ifs :=
  repeat match goal with
  | |- context [if ?b then _ else _] => destruct b eqn:?
  end.

(** ** The three predicates, run on a state *)

Section Predicates.
Variable fs : filesystem.
Variable p : path.

Lemma is_file_run :
  FileSystem.is_file p fs =
  (Return match lookup fs p with
          | Some n => is_file_node n
          | None => false
          end, fs).
Proof.
  unfold FileSystem.is_file, os_path_isfile, try_except, bind, os_stat, lookup.
  destruct (resolve fs p) as [e | n].
  - destruct e; reflexivity.
  - destruct n; reflexivity.
Qed.

Lemma is_directory_run :
  FileSystem.is_directory p fs =
  (Return match lookup fs p with
          | Some n => is_dir_node n
          | None => false
          end, fs).
Proof.
  unfold FileSystem.is_directory, os_path_isdir, try_except, bind, os_stat,
    lookup.
  destruct (resolve fs p) as [e | n].
  - destruct e; reflexivity.
  - destruct n; reflexivity.
Qed.

Lemma is_object_run :
  FileSystem.is_object p fs =
  (Return match lookup fs p with
          | Some _ => true
          | None => false
          end, fs).
Proof.
  unfold FileSystem.is_object, os_path_exists, try_except, bind, os_stat,
    lookup.
  destruct (resolve fs p) as [e | n]; [destruct e |]; reflexivity.
Qed.

End Predicates.

Lemma lookup_file_resolve fs p content mtime :
  lookup fs p = Some (File content mtime) ->
  resolve fs p = inr (File content mtime).
Proof.
  unfold lookup. destruct (resolve fs p); congruence.
Qed.

(** Binding after a predicate: the state is untouched and the
    continuation sees the predicate's value. *)
Lemma bind_is_file {A} fs p (k : bool -> py filesystem A) :
  bind (FileSystem.is_file p) k fs =
  k match lookup fs p with Some n => is_file_node n | None => false end fs.
Proof. unfold bind. now rewrite is_file_run. Qed.

Lemma bind_is_directory {A} fs p (k : bool -> py filesystem A) :
  bind (FileSystem.is_directory p) k fs =
  k match lookup fs p with Some n => is_dir_node n | None => false end fs.
Proof. unfold bind. now rewrite is_directory_run. Qed.

Lemma bind_is_object {A} fs p (k : bool -> py filesystem A) :
  bind (FileSystem.is_object p) k fs =
  k match lookup fs p with Some _ => true | None => false end fs.
Proof. unfold bind. now rewrite is_object_run. Qed.

(** ** Frame lemmas for the library calls that only read *)

Lemma os_stat_frame p fs : snd (os_stat p fs) = fs.
Proof. unfold os_stat. now destruct (resolve fs p). Qed.

Lemma os_listdir_frame p fs : snd (os_listdir p fs) = fs.
Proof. unfold os_listdir. now destruct (resolve fs p) as [|[]]. Qed.

Lemma os_walk_frame p fs : snd (os_walk p fs) = fs.
Proof. unfold os_walk. now destruct (resolve fs p). Qed.

Lemma open_read_frame p fs : snd (open_read p fs) = fs.
Proof. unfold open_read. now destruct (resolve fs p) as [|[]]. Qed.

Lemma filterM_frame {A} (f : A -> py filesystem bool) :
  (forall x s, snd (f x s) = s) ->
  forall xs s, snd (filterM f xs s) = s.
Proof.
  intros Hf xs. induction xs as [|x xs IH]; intros s; [reflexivity|].
  cbn [filterM]. unfold bind at 1.
  specialize (Hf x s). destruct (f x s) as [[keep|e] s1]; cbn in Hf; subst s1.
  - unfold bind. specialize (IH s).
    destruct (filterM f xs s) as [[rest|e] s2]; cbn in IH; now subst.
  - reflexivity.
Qed.

(** What the comprehension of the flat branch computes. *)
Lemma filterM_is_file fs d names :
  filterM (fun f => FileSystem.is_file (os_path_join d f)) names fs =
  (Return (filter (fun f => match lookup fs (os_path_join d f) with
                            | Some n => is_file_node n
                            | None => false
                            end) names), fs).
Proof.
  induction names as [|f names IH]; [reflexivity|].
  cbn [filterM filter]. rewrite bind_is_file.
  unfold bind. rewrite IH. reflexivity.
Qed.

(* ================================================================== *)
(** ** The UTF-8 decoder accepts exactly the encodings of scalar values *)

Module Utf8Facts.
Import Utf8.

Lemma utf8_decode_cons ch s1 :
  utf8_decode (ch :: s1) =
        if ch <? 0x80 then
          option_map (cons ch) (utf8_decode s1)
        else if ch <? 0xE0 then
          if ch <? 0xC2 then None
          else
            match s1 with
            | ch2 :: s2 =>
                if is_continuation_byte ch2
                then option_map
                       (cons (ch * 64 + ch2 - (0xC0 * 64 + 0x80)))
                       (utf8_decode s2)
                else None
            | _ => None
            end
        else if ch <? 0xF0 then
          match s1 with
          | ch2 :: ch3 :: s3 =>
              if (ch =? 0xE0) && (ch2 <? 0xA0) then None
              else if (ch =? 0xED) && (0xA0 <=? ch2) then None
              else if is_continuation_byte ch2 && is_continuation_byte ch3
              then option_map
                     (cons (ch * 4096 + ch2 * 64 + ch3
                            - (0xE0 * 4096 + 0x80 * 64 + 0x80)))
                     (utf8_decode s3)
              else None
          | _ => None
          end
        else if ch <? 0xF5 then
          match s1 with
          | ch2 :: ch3 :: ch4 :: s4 =>
              if (ch =? 0xF0) && (ch2 <? 0x90) then None
              else if (ch =? 0xF4) && (0x90 <=? ch2) then None
              else if is_continuation_byte ch2 && is_continuation_byte ch3
                      && is_continuation_byte ch4
              then option_map
                     (cons (ch * 262144 + ch2 * 4096 + ch3 * 64 + ch4
                            - (0xF0 * 262144 + 0x80 * 4096
                               + 0x80 * 64 + 0x80)))
                     (utf8_decode s4)
              else None
          | _ => None
          end
        else None.
Proof. reflexivity. Qed.


Ltac ifs_by_lia :=
  split_ifs; bool_to_prop;
  first [ exfalso; dlia | f_equal; f_equal; dlia | reflexivity ].

Lemma decode_encode_char cp rest :
  scalar_value cp ->
  utf8_decode (encode_char cp ++ rest) = option_map (cons cp) (utf8_decode rest).
Proof.
  intros Hs. unfold scalar_value in Hs. unfold encode_char.
  destruct (cp <? 128) eqn:H1; [|destruct (cp <? 2048) eqn:H2; [|destruct (cp <? 65536) eqn:H3]];
  cbn [app]; rewrite utf8_decode_cons; unfold is_continuation_byte.
  - rewrite H1. reflexivity.
  - bool_to_prop. ifs_by_lia.
  - bool_to_prop. ifs_by_lia.
  - bool_to_prop. ifs_by_lia.
Qed.

Lemma decode_encode cps :
  Forall scalar_value cps -> utf8_decode (utf8_encode cps) = Some cps.
Proof.
  induction 1 as [|cp cps Hcp _ IH]; [reflexivity|].
  cbn [utf8_encode flat_map]. rewrite decode_encode_char by assumption.
  fold (utf8_encode cps). rewrite IH. reflexivity.
Qed.

Lemma option_map_cons_inv (c : Z) o cps :
  option_map (cons c) o = Some cps -> exists tl, o = Some tl /\ cps = c :: tl.
Proof. destruct o; cbn; intros H; inversion H; eauto. Qed.


Ltac close_branch tl He Hs :=
  bool_to_prop;
  (split; [constructor; [unfold scalar_value; dlia | exact Hs]|]);
  cbn [utf8_encode flat_map]; fold (utf8_encode tl); rewrite He;
  unfold encode_char; split_ifs; bool_to_prop; try (exfalso; dlia);
  cbn [app]; repeat (apply (f_equal2 cons); [dlia|]); reflexivity.

Lemma encode_decode_bounded n :
  forall s cps, (List.length s <= n)%nat -> Forall is_byte s ->
  utf8_decode s = Some cps -> Forall scalar_value cps /\ utf8_encode cps = s.
Proof.
  induction n as [|n IH]; intros s cps Hlen Hb Hd.
  - destruct s; [|cbn in Hlen; lia]. cbn in Hd. inversion Hd. split; [constructor|reflexivity].
  - destruct s as [|ch s1]; [cbn in Hd; inversion Hd; split; [constructor|reflexivity]|].
    rewrite utf8_decode_cons in Hd. unfold is_continuation_byte in Hd.
    pose proof (Forall_inv Hb) as Hch. apply Forall_inv_tail in Hb.
    unfold is_byte in Hch.
    destruct (ch <? 128) eqn:E1.
    { apply option_map_cons_inv in Hd. destruct Hd as (tl & Hd & ->).
      apply IH in Hd; [|cbn in Hlen; lia|assumption]. destruct Hd as [Hs He].
      close_branch tl He Hs. }
    destruct (ch <? 224) eqn:E2.
    { destruct (ch <? 194) eqn:E3; [discriminate|].
      destruct s1 as [|ch2 s2]; [discriminate|].
      destruct ((128 <=? ch2) && (ch2 <? 192)) eqn:E4; [|discriminate].
      apply option_map_cons_inv in Hd. destruct Hd as (tl & Hd & ->).
      apply IH in Hd; [|cbn in Hlen; lia|now apply Forall_inv_tail in Hb].
      destruct Hd as [Hs He]. close_branch tl He Hs. }
    destruct (ch <? 240) eqn:E3.
    { destruct s1 as [|ch2 [|ch3 s3]]; try discriminate.
      destruct ((ch =? 224) && (ch2 <? 160)) eqn:E4; [discriminate|].
      destruct ((ch =? 237) && (160 <=? ch2)) eqn:E5; [discriminate|].
      destruct ((128 <=? ch2) && (ch2 <? 192) && ((128 <=? ch3) && (ch3 <? 192))) eqn:E6; [|discriminate].
      apply option_map_cons_inv in Hd. destruct Hd as (tl & Hd & ->).
      apply IH in Hd; [|cbn in Hlen; lia|now do 2 apply Forall_inv_tail in Hb].
      destruct Hd as [Hs He]. close_branch tl He Hs. }
    destruct (ch <? 245) eqn:E4; [|discriminate].
    destruct s1 as [|ch2 [|ch3 [|ch4 s4]]]; try discriminate.
    destruct ((ch =? 240) && (ch2 <? 144)) eqn:E5; [discriminate|].
    destruct ((ch =? 244) && (144 <=? ch2)) eqn:E6; [discriminate|].
    destruct ((128 <=? ch2) && (ch2 <? 192) && ((128 <=? ch3) && (ch3 <? 192)) && ((128 <=? ch4) && (ch4 <? 192))) eqn:E7; [|discriminate].
    apply option_map_cons_inv in Hd. destruct Hd as (tl & Hd & ->).
    apply IH in Hd; [|cbn in Hlen; lia|now do 3 apply Forall_inv_tail in Hb].
    destruct Hd as [Hs He]. close_branch tl He Hs.
Qed.

Lemma Z_of_byte_range b : is_byte (Z_of_byte b).
Proof. unfold is_byte, Z_of_byte. pose proof (Byte.to_N_bounded b). lia. Qed.

Theorem utf8_decode_valid raw :
  (exists text, utf8_decode (map Z_of_byte raw) = Some text) <-> valid_utf8 raw.
Proof.
  split.
  - intros [text Hd]. exists text.
    apply (encode_decode_bounded (List.length (map Z_of_byte raw))) in Hd.
    + destruct Hd; split; [assumption|congruence].
    + apply le_n.
    + apply Forall_forall. intros b Hb. apply in_map_iff in Hb.
      destruct Hb as (b0 & <- & _). apply Z_of_byte_range.
  - intros (cps & Hs & He). exists cps. rewrite He. now apply decode_encode.
Qed.

End Utf8Facts.

(* ================================================================== *)
(** ** Calendar arithmetic of [fromtimestamp] *)

Module DatetimeFacts.
Import Datetime.

Lemma month_day_table :
  forallb (month_day_ok true) (seq 0 366) && forallb (month_day_ok false) (seq 0 365) = true.
Proof. vm_compute. reflexivity. Qed.

Lemma month_day_spec n leapyear :
  0 <= n < 365 + Z_of_bool leapyear ->
  let '(m, d) := month_day n leapyear in
  1 <= m <= 12 /\
  1 <= d <= (if (m =? 2) && leapyear then 29 else DAYS_IN_MONTH m) /\
  DAYS_BEFORE_MONTH m + Z_of_bool ((2 <? m) && leapyear) + d = n + 1.
Proof.
  intros Hn. pose proof month_day_table as T.
  apply andb_true_iff in T. destruct T as [Tl Tn].
  assert (H : month_day_ok leapyear (Z.to_nat n) = true).
  { destruct leapyear; cbn in Hn.
    - eapply forallb_forall in Tl; [exact Tl|]. apply in_seq. lia.
    - eapply forallb_forall in Tn; [exact Tn|]. apply in_seq. lia. }
  unfold month_day_ok in H. rewrite Z2Nat.id in H by lia.
  destruct (month_day n leapyear) as [m d].
  bool_to_prop. repeat split; assumption.
Qed.

Lemma days_before_month_closed y m :
  1 <= m <= 12 ->
  days_before_month y m = DAYS_BEFORE_MONTH m + Z_of_bool ((2 <? m) && is_leap y).
Proof.
  intros Hm. unfold days_before_month, days_in_month.
  assert (C : m = 1 \/ m = 2 \/ m = 3 \/ m = 4 \/ m = 5 \/ m = 6 \/ m = 7 \/ m = 8 \/ m = 9 \/ m = 10 \/ m = 11 \/ m = 12) by lia.
  destruct (is_leap y);
  repeat (destruct C as [->|C]; [reflexivity|]); subst; reflexivity.
Qed.

Lemma ord2ymd_month_day ordinal :
  ord2ymd ordinal =
    let n := ordinal - 1 in
    let n400 := n / DI400Y in
    let n := n mod DI400Y in
    let y := n400 * 400 + 1 in
    let n100 := n / DI100Y in
    let n := n mod DI100Y in
    let n4 := n / DI4Y in
    let n := n mod DI4Y in
    let n1 := n / 365 in
    let n := n mod 365 in
    let y := y + n100 * 100 + n4 * 4 + n1 in
    if (n1 =? 4) || (n100 =? 4) then (y - 1, 12, 31)
    else
      let leapyear := (n1 =? 3) && (negb (n4 =? 24) || (n100 =? 3)) in
      let '(m, d) := month_day n leapyear in (y, m, d).
Proof.
  unfold ord2ymd, month_day. cbv zeta.
  destruct (_ || _); [reflexivity|].
  destruct (_ <? _); reflexivity.
Qed.

Lemma is_leap_iff y :
  is_leap y = true <-> (y mod 4 = 0 /\ (y mod 100 <> 0 \/ y mod 400 = 0)).
Proof.
  unfold is_leap. rewrite andb_true_iff, orb_true_iff, negb_true_iff.
  rewrite !Z.eqb_eq, Z.eqb_neq. tauto.
Qed.

Theorem ord2ymd_spec ordinal :
  let '(y, m, d) := ord2ymd ordinal in
  1 <= m <= 12 /\ 1 <= d <= days_in_month y m /\ ymd2ord y m d = ordinal.
Proof.
  rewrite ord2ymd_month_day. cbv zeta. unfold DI400Y, DI100Y, DI4Y.
  set (n0 := ordinal - 1).
  set (n400 := n0 / 146097). set (r400 := n0 mod 146097).
  set (n100 := r400 / 36524). set (r100 := r400 mod 36524).
  set (n4 := r100 / 1461). set (r4 := r100 mod 1461).
  set (n1 := r4 / 365). set (r1 := r4 mod 365).
  assert (F400 : n0 = 146097 * n400 + r400 /\ 0 <= r400 < 146097) by (subst n400 r400; dlia).
  assert (F100 : r400 = 36524 * n100 + r100 /\ 0 <= r100 < 36524) by (subst n100 r100; dlia).
  assert (F4 : r100 = 1461 * n4 + r4 /\ 0 <= r4 < 1461) by (subst n4 r4; dlia).
  assert (F1 : r4 = 365 * n1 + r1 /\ 0 <= r1 < 365) by (subst n1 r1; dlia).
  assert (Hord : ordinal = n0 + 1) by (subst n0; lia).
  clearbody n0 n400 r400 n100 r100 n4 r4 n1 r1.
  destruct ((n1 =? 4) || (n100 =? 4)) eqn:E.
  - unfold ymd2ord, days_in_month. rewrite days_before_month_closed by lia.
    change (12 =? 2) with false. change (2 <? 12) with true.
    cbn [DAYS_BEFORE_MONTH DAYS_IN_MONTH andb].
    split; [lia|]. split; [lia|].
    unfold days_before_year.
    set (Y := n400 * 400 + 1 + n100 * 100 + n4 * 4 + n1 - 1).
    assert (L : is_leap Y = true).
    { apply is_leap_iff. subst Y. bool_to_prop; dlia. }
    rewrite L. cbn [Z_of_bool]. subst Y. bool_to_prop; dlia.
  - set (leapyear := (n1 =? 3) && (negb (n4 =? 24) || (n100 =? 3))).
    set (Y := n400 * 400 + 1 + n100 * 100 + n4 * 4 + n1).
    assert (L : is_leap Y = leapyear).
    { apply eq_true_iff_eq. rewrite is_leap_iff. subst leapyear Y.
      rewrite andb_true_iff, orb_true_iff, negb_true_iff, !Z.eqb_eq, Z.eqb_neq.
      bool_to_prop. dlia. }
    assert (Hr : 0 <= r1 < 365 + Z_of_bool leapyear).
    { subst leapyear. bool_to_prop. destruct (n1 =? 3) eqn:?, (n4 =? 24) eqn:?, (n100 =? 3) eqn:?; cbn; bool_to_prop; lia. }
    pose proof (month_day_spec r1 leapyear Hr) as M.
    destruct (month_day r1 leapyear) as [m d].
    destruct M as (Hm & Hd & Hs).
    unfold ymd2ord, days_in_month. rewrite days_before_month_closed by lia.
    rewrite L. repeat split; try lia.
    unfold days_before_year. subst Y. bool_to_prop. dlia.
Qed.

Lemma days_before_next_year y :
  days_before_year (y + 1) = days_before_year y + 365 + Z_of_bool (is_leap y).
Proof.
  unfold days_before_year.
  destruct (is_leap y) eqn:L; cbn [Z_of_bool].
  - apply is_leap_iff in L. dlia.
  - assert (N : ~ (y mod 4 = 0 /\ (y mod 100 <> 0 \/ y mod 400 = 0))).
    { rewrite <- is_leap_iff. congruence. }
    dlia.
Qed.

Lemma ymd2ord_year_bounds y m d :
  1 <= m <= 12 -> 1 <= d <= days_in_month y m ->
  days_before_year y < ymd2ord y m d <= days_before_year (y + 1).
Proof.
  intros Hm Hd. rewrite days_before_next_year. unfold ymd2ord.
  rewrite days_before_month_closed by assumption.
  unfold days_in_month in Hd.
  assert (C : m = 1 \/ m = 2 \/ m = 3 \/ m = 4 \/ m = 5 \/ m = 6 \/ m = 7 \/ m = 8 \/ m = 9 \/ m = 10 \/ m = 11 \/ m = 12) by lia.
  destruct (is_leap y);
  repeat (destruct C as [->|C]; [cbn in *; lia|]); subst; cbn in *; lia.
Qed.

Lemma ord2ymd_year_range ordinal :
  let '(y, _, _) := ord2ymd ordinal in
  (MINYEAR <= y <= MAXYEAR) <-> (1 <= ordinal <= 3652059).
Proof.
  pose proof (ord2ymd_spec ordinal) as H.
  destruct (ord2ymd ordinal) as [[y m] d]. destruct H as (Hm & Hd & Ho).
  pose proof (ymd2ord_year_bounds y m d Hm Hd) as B. rewrite Ho in B.
  rewrite days_before_next_year in B.
  unfold MINYEAR, MAXYEAR. unfold days_before_year in B.
  destruct (is_leap y) eqn:L; cbn [Z_of_bool] in B.
  - apply is_leap_iff in L. dlia.
  - assert (N : ~ (y mod 4 = 0 /\ (y mod 100 <> 0 \/ y mod 400 = 0))).
    { rewrite <- is_leap_iff. congruence. }
    dlia.
Qed.

Theorem fromtimestamp_utc_in_range t :
  MIN_TIMESTAMP <= t <= MAX_TIMESTAMP ->
  exists dt, fromtimestamp_utc t = Return dt /\ valid_datetime dt /\ timegm dt = t.
Proof.
  intros Ht. unfold fromtimestamp_utc.
  pose proof (ord2ymd_spec (t / 86400 + EPOCH_ORDINAL)) as H.
  pose proof (ord2ymd_year_range (t / 86400 + EPOCH_ORDINAL)) as R.
  destruct (ord2ymd (t / 86400 + EPOCH_ORDINAL)) as [[y m] d].
  destruct H as (Hm & Hd & Ho).
  assert (Hy : MINYEAR <= y <= MAXYEAR).
  { apply R. unfold EPOCH_ORDINAL, MIN_TIMESTAMP, MAX_TIMESTAMP in *. dlia. }
  replace (negb ((- 2 ^ 63 <=? t) && (t <? 2 ^ 63))) with false.
  2:{ symmetry. apply negb_false_iff, andb_true_iff.
      unfold MIN_TIMESTAMP, MAX_TIMESTAMP in Ht.
      split; [apply Z.leb_le | apply Z.ltb_lt]; lia. }
  replace (negb ((- 2 ^ 31 <=? y - 1900) && (y - 1900 <? 2 ^ 31))) with false.
  2:{ symmetry. apply negb_false_iff, andb_true_iff.
      unfold MINYEAR, MAXYEAR in Hy.
      split; [apply Z.leb_le | apply Z.ltb_lt]; lia. }
  replace ((MINYEAR <=? y) && (y <=? MAXYEAR)) with true
    by (symmetry; apply andb_true_iff; split; apply Z.leb_le; lia).
  eexists. split; [reflexivity|]. split.
  - unfold valid_datetime. cbn [year month day hour minute second].
    repeat split; try lia; dlia.
  - unfold timegm. cbn [year month day hour minute second]. rewrite Ho. dlia.
Qed.

(** Outside the range nothing is returned; the error is the
    [OSError] of [gmtime] or one of the two range errors. *)
Theorem fromtimestamp_utc_out_of_range t :
  ~ (MIN_TIMESTAMP <= t <= MAX_TIMESTAMP) ->
  exists e, fromtimestamp_utc t = Raise e /\
            (e = DatetimeRangeError \/ e = OSError).
Proof.
  intros Ht. unfold fromtimestamp_utc.
  destruct (negb ((- 2 ^ 63 <=? t) && (t <? 2 ^ 63))); [eauto|].
  pose proof (ord2ymd_year_range (t / 86400 + EPOCH_ORDINAL)) as R.
  destruct (ord2ymd (t / 86400 + EPOCH_ORDINAL)) as [[y m] d].
  destruct (negb ((- 2 ^ 31 <=? y - 1900) && (y - 1900 <? 2 ^ 31)));
    [eauto|].
  destruct ((MINYEAR <=? y) && (y <=? MAXYEAR)) eqn:E; [|eauto].
  exfalso. apply Ht. bool_to_prop.
  assert (Hy : MINYEAR <= y <= MAXYEAR) by lia. apply R in Hy.
  unfold EPOCH_ORDINAL, MIN_TIMESTAMP, MAX_TIMESTAMP in *. dlia.
Qed.


(** ** The float of [os.stat]: rounding to 53 bits *)

Lemma round_half_even_bounds n d :
  0 < d ->
  n / d <= round_half_even n d
  /\ round_half_even n d <= n / d + (if n mod d =? 0 then 0 else 1).
Proof.
  intros Hd. unfold round_half_even.
  pose proof (Z.mod_pos_bound n d Hd) as Hr.
  destruct (n mod d =? 0) eqn:E.
  - apply Z.eqb_eq in E. rewrite E.
    replace (2 * 0 <? d) with true by (symmetry; apply Z.ltb_lt; lia). lia.
  - split_ifs; lia.
Qed.

Lemma round53_small n : Z.abs n < 2 ^ 53 -> round53 n = n.
Proof.
  intros H. unfold round53.
  now replace (Z.abs n <? 2 ^ 53) with true by (symmetry; now apply Z.ltb_lt).
Qed.

Lemma round53_opp n : round53 (- n) = - round53 n.
Proof.
  unfold round53. rewrite Z.abs_opp, Z.sgn_opp.
  destruct (Z.abs n <? 2 ^ 53); lia.
Qed.

(** The shape of a large argument: [2^52 * 2^s <= n < 2^53 * 2^s]. *)
Lemma round53_large n :
  2 ^ 53 <= n ->
  let s := Z.log2 n - 52 in
  1 <= s /\ 2 ^ 52 * 2 ^ s <= n /\
  round53 n = round_half_even n (2 ^ s) * 2 ^ s.
Proof.
  intros Hn s. assert (Hpos : 0 < n) by lia.
  pose proof (Z.log2_spec n Hpos) as [Hlo Hhi].
  assert (Hb : 53 <= Z.log2 n).
  { apply Z.log2_le_pow2; [lia | exact Hn]. }
  split; [subst s; lia|]. split.
  - rewrite <- Z.pow_add_r by (subst s; lia).
    replace (52 + s) with (Z.log2 n) by (subst s; lia). exact Hlo.
  - unfold round53. rewrite Z.abs_eq by lia.
    replace (n <? 2 ^ 53) with false by (symmetry; apply Z.ltb_ge; lia).
    rewrite Z.sgn_pos by lia. fold s. lia.
Qed.

(** Numbers [a * 2^j] with [a] of at most 53 bits are floats: rounding
    never crosses them. *)
Lemma round53_lower a j n :
  0 <= a < 2 ^ 53 -> 0 <= j -> a * 2 ^ j <= n -> a * 2 ^ j <= round53 n.
Proof.
  intros Ha Hj Hn.
  assert (Hj2 : 0 < 2 ^ j) by (apply Z.pow_pos_nonneg; lia).
  destruct (Z_lt_le_dec n (2 ^ 53)) as [Hs|Hl].
  - rewrite round53_small; [exact Hn|]. rewrite Z.abs_eq; nia.
  - destruct (round53_large n Hl) as (Hs & Hlo & ->).
    set (s := Z.log2 n - 52) in *.
    assert (Hs2 : 0 < 2 ^ s) by (apply Z.pow_pos_nonneg; lia).
    pose proof (round_half_even_bounds n (2 ^ s) Hs2) as [Hfl _].
    destruct (Z_le_gt_dec s j) as [Hsj|Hsj].
    + assert (E : 2 ^ j = 2 ^ (j - s) * 2 ^ s).
      { rewrite <- Z.pow_add_r by lia. f_equal. lia. }
      assert (a * 2 ^ (j - s) <= n / 2 ^ s).
      { apply Z.div_le_lower_bound; [exact Hs2|]. rewrite E in Hn. lia. }
      rewrite E. nia.
    + assert (2 ^ 52 <= n / 2 ^ s).
      { apply Z.div_le_lower_bound; [exact Hs2|]. lia. }
      assert (E : 2 ^ s = 2 ^ (s - j) * 2 ^ j).
      { rewrite <- Z.pow_add_r by lia. f_equal. lia. }
      assert (2 <= 2 ^ (s - j)).
      { change 2 with (2 ^ 1) at 1. apply Z.pow_le_mono_r; lia. }
      nia.
Qed.

Lemma round53_upper a j n :
  0 < a <= 2 ^ 53 -> 0 <= j -> 0 <= n <= a * 2 ^ j -> round53 n <= a * 2 ^ j.
Proof.
  intros Ha Hj Hn.
  assert (Hj2 : 0 < 2 ^ j) by (apply Z.pow_pos_nonneg; lia).
  destruct (Z_lt_le_dec n (2 ^ 53)) as [Hs|Hl].
  - rewrite round53_small; [lia|]. rewrite Z.abs_eq; lia.
  - destruct (round53_large n Hl) as (Hs & Hlo & ->).
    set (s := Z.log2 n - 52) in *.
    assert (Hs2 : 0 < 2 ^ s) by (apply Z.pow_pos_nonneg; lia).
    pose proof (round_half_even_bounds n (2 ^ s) Hs2) as [_ Hce].
    pose proof (Z.div_mod n (2 ^ s) ltac:(lia)) as Hdm.
    pose proof (Z.mod_pos_bound n (2 ^ s) Hs2) as Hr.
    destruct (Z_le_gt_dec s j) as [Hsj|Hsj].
    + assert (E : 2 ^ j = 2 ^ (j - s) * 2 ^ s).
      { rewrite <- Z.pow_add_r by lia. f_equal. lia. }
      rewrite E in *.
      assert (0 < 2 ^ (j - s)) by (apply Z.pow_pos_nonneg; lia).
      destruct (n mod 2 ^ s =? 0) eqn:Em; bool_to_prop.
      * assert (n / 2 ^ s <= a * 2 ^ (j - s)) by nia. nia.
      * assert (n / 2 ^ s < a * 2 ^ (j - s)) by nia. nia.
    + assert (E : 2 ^ s = 2 ^ (s - j) * 2 ^ j).
      { rewrite <- Z.pow_add_r by lia. f_equal. lia. }
      assert (2 <= 2 ^ (s - j)).
      { change 2 with (2 ^ 1) at 1. apply Z.pow_le_mono_r; lia. }
      assert (En : n = 2 ^ 52 * 2 ^ s) by nia.
      assert (Em : n mod 2 ^ s = 0).
      { rewrite En. apply Z.mod_mul. lia. }
      rewrite Em in Hce. cbn [Z.eqb] in Hce.
      assert (n / 2 ^ s = 2 ^ 52).
      { rewrite En. apply Z.div_mul. lia. }
      nia.
Qed.


Lemma round53_nsec nsec :
  0 <= nsec < 1000000000 ->
  0 <= round53 (ONE_E_MINUS_9 * nsec) <= 2 ^ 82.
Proof.
  intros H. unfold ONE_E_MINUS_9. split.
  - apply (round53_lower 0 0); lia.
  - apply (round53_upper (2 ^ 53) 29); lia.
Qed.

(** The float is in the second of the time on disk, or is the start of
    the next second. *)
Lemma float_seconds_num_bounds sec nsec :
  Z.abs sec < 2 ^ 53 -> 0 <= nsec < 1000000000 ->
  sec * 2 ^ 82 <= float_seconds_num sec nsec <= (sec + 1) * 2 ^ 82.
Proof.
  intros Hs Hn. unfold float_seconds_num.
  rewrite (round53_small sec Hs).
  pose proof (round53_nsec nsec Hn) as Hr.
  set (r := round53 (ONE_E_MINUS_9 * nsec)) in *.
  destruct (Z_le_gt_dec 0 sec) as [H0|H0].
  - split.
    + apply round53_lower; lia.
    + apply round53_upper; lia.
  - replace (sec * 2 ^ 82 + r) with (- ((- sec - 1) * 2 ^ 82 + (2 ^ 82 - r)))
      by lia.
    rewrite round53_opp. split.
    + enough (round53 ((- sec - 1) * 2 ^ 82 + (2 ^ 82 - r)) <= - sec * 2 ^ 82)
        by lia.
      apply round53_upper; lia.
    + enough ((- sec - 1) * 2 ^ 82
              <= round53 ((- sec - 1) * 2 ^ 82 + (2 ^ 82 - r))) by lia.
      apply round53_lower; lia.
Qed.


(** Below [2^33] seconds (year 2242) the floats are less than a
    microsecond apart: a time at least a microsecond before the next
    second keeps its second. *)
Lemma float_seconds_num_exact sec nsec :
  0 <= sec < 2 ^ 33 -> 0 <= nsec <= 999999000 ->
  sec * 2 ^ 82 <= float_seconds_num sec nsec < (sec + 1) * 2 ^ 82.
Proof.
  intros Hs Hn. unfold float_seconds_num.
  rewrite (round53_small sec) by lia.
  assert (Hr : 0 <= round53 (ONE_E_MINUS_9 * nsec) <= (2 ^ 20 - 1) * 2 ^ 62).
  { unfold ONE_E_MINUS_9. split.
    - apply (round53_lower 0 0); lia.
    - apply round53_upper; lia. }
  set (r := round53 (ONE_E_MINUS_9 * nsec)) in *.
  split.
  - apply round53_lower; lia.
  - enough (round53 (sec * 2 ^ 82 + r) <= ((sec + 1) * 2 ^ 20 - 1) * 2 ^ 62)
      by lia.
    apply round53_upper; lia.
Qed.

Lemma tv_nsec_bounds t : 0 <= tv_nsec t < 1000000000.
Proof.
  unfold tv_nsec. destruct t as [num den]. cbn [Qnum Qden].
  pose proof (Z.mod_pos_bound num (Z.pos den) ltac:(lia)) as Hr.
  split.
  - apply Z.div_pos; lia.
  - apply Z.div_lt_upper_bound; nia.
Qed.

Lemma int_of_float_seconds sec nsec :
  int_of_float (float_seconds sec nsec)
  = Z.quot (float_seconds_num sec nsec) (2 ^ 82).
Proof. reflexivity. Qed.

Lemma quot_between n a :
  a * 2 ^ 82 <= n <= (a + 1) * 2 ^ 82 -> a <= Z.quot n (2 ^ 82) <= a + 1.
Proof.
  intros H.
  pose proof (Z.quot_rem n (2 ^ 82) ltac:(lia)) as E.
  destruct (Z_le_gt_dec 0 n) as [H0|H0].
  - pose proof (Z.rem_bound_pos n (2 ^ 82) H0 ltac:(lia)). lia.
  - pose proof (Z.rem_bound_pos_neg n (2 ^ 82) ltac:(lia) ltac:(lia)). lia.
Qed.

Lemma int_of_st_mtime_bounds mtime :
  Z.abs (tv_sec mtime) < 2 ^ 53 ->
  tv_sec mtime <= int_of_float (st_mtime_of mtime) <= tv_sec mtime + 1.
Proof.
  intros Hs. unfold st_mtime_of. rewrite int_of_float_seconds.
  apply quot_between, float_seconds_num_bounds;
    [exact Hs | apply tv_nsec_bounds].
Qed.


Lemma int_of_st_mtime_exact mtime :
  0 <= tv_sec mtime < 2 ^ 33 -> tv_nsec mtime <= 999999000 ->
  int_of_float (st_mtime_of mtime) = tv_sec mtime.
Proof.
  intros Hs Hn. unfold st_mtime_of. rewrite int_of_float_seconds.
  pose proof (tv_nsec_bounds mtime) as Hb.
  pose proof (float_seconds_num_exact (tv_sec mtime) (tv_nsec mtime) Hs
                ltac:(lia)) as H.
  symmetry.
  apply Z.quot_unique
    with (r := float_seconds_num (tv_sec mtime) (tv_nsec mtime)
               - tv_sec mtime * 2 ^ 82); lia.
Qed.

End DatetimeFacts.

(* ================================================================== *)
(** ** Calls that leave the state alone *)

Lemma frame_ret {A} (a : A) : @frame filesystem A (ret a).
Proof. intros s. reflexivity. Qed.

Lemma frame_raise {A} e : frame (@raise filesystem A e).
Proof. intros s. reflexivity. Qed.

Lemma frame_lift {A} (o : outcome A) : @frame filesystem A (lift o).
Proof. intros s. reflexivity. Qed.

Lemma frame_bind {A B} (m : py filesystem A) (k : A -> py filesystem B) :
  frame m -> (forall a, frame (k a)) -> frame (bind m k).
Proof.
  intros Hm Hk s. unfold bind. specialize (Hm s).
  destruct (m s) as [[a|e] s']; cbn in Hm; subst s'; [apply Hk | reflexivity].
Qed.

Lemma frame_try_except {A} (m : py filesystem A) h :
  frame m -> (forall e, frame (h e)) -> frame (try_except m h).
Proof.
  intros Hm Hh s. unfold try_except. specialize (Hm s).
  destruct (m s) as [[a|e] s']; cbn in Hm; subst s'; [reflexivity | apply Hh].
Qed.

Lemma frame_if {A} (b : bool) (m1 m2 : py filesystem A) :
  frame m1 -> frame m2 -> frame (if b then m1 else m2).
Proof. now destruct b. Qed.

Lemma frame_os_stat p : frame (os_stat p).
Proof. intros s. apply os_stat_frame. Qed.

Lemma frame_os_listdir p : frame (os_listdir p).
Proof. intros s. apply os_listdir_frame. Qed.

Lemma frame_os_walk p : frame (os_walk p).
Proof. intros s. apply os_walk_frame. Qed.

Lemma frame_open_read p : frame (open_read p).
Proof. intros s. apply open_read_frame. Qed.

Lemma frame_filterM {A} (f : A -> py filesystem bool) xs :
  (forall x, frame (f x)) -> frame (filterM f xs).
Proof. intros Hf s. apply filterM_frame. intros x s'. apply Hf. Qed.

Lemma frame_bytes_decode_utf8 raw : frame (FileSystem.bytes_decode_utf8 raw).
Proof.
  unfold FileSystem.bytes_decode_utf8.
  destruct (Utf8.utf8_decode _); [apply frame_ret | apply frame_raise].
Qed.

Create HintDb frame.
#[local] Hint Resolve frame_ret frame_raise frame_lift frame_os_stat
  frame_os_listdir frame_os_walk frame_open_read frame_bytes_decode_utf8
  : frame.
#[local] Hint Extern 2 (frame (bind _ _)) =>
  apply frame_bind; [|intros ?] : frame.
#[local] Hint Extern 2 (frame (try_except _ _)) =>
  apply frame_try_except; [|intros ?] : frame.
#[local] Hint Extern 2 (frame (if _ then _ else _)) =>
  apply frame_if : frame.
#[local] Hint Extern 2 (frame (filterM _ _)) =>
  apply frame_filterM; intros ? : frame.

Lemma frame_is_file p : frame (FileSystem.is_file p).
Proof. unfold FileSystem.is_file, os_path_isfile. auto 8 with frame. Qed.

Lemma frame_is_directory p : frame (FileSystem.is_directory p).
Proof. unfold FileSystem.is_directory, os_path_isdir. auto 8 with frame. Qed.

Lemma frame_is_object p : frame (FileSystem.is_object p).
Proof. unfold FileSystem.is_object, os_path_exists. auto 8 with frame. Qed.

#[local] Hint Resolve frame_is_file frame_is_directory frame_is_object : frame.

Lemma frame_get_file_size p : frame (FileSystem.get_file_size p).
Proof.
  unfold FileSystem.get_file_size, os_path_getsize. auto 8 with frame.
Qed.

Lemma frame_get_file_timestamp p : frame (FileSystem.get_file_timestamp p).
Proof. unfold FileSystem.get_file_timestamp. auto 8 with frame. Qed.

Lemma frame_is_utf8_encoded p : frame (FileSystem.is_utf8_encoded p).
Proof. unfold FileSystem.is_utf8_encoded. auto 10 with frame. Qed.

Lemma frame_list_files p b : frame (FileSystem.list_files p b).
Proof. unfold FileSystem.list_files. auto 10 with frame. Qed.

(* ================================================================== *)
(** ** The queries *)

Import Fixtures.

(** C7. [get_file_size] raises [FileNotFoundError] exactly when the path
    is not an existing regular file; on a regular file holding N bytes it
    returns N, a non-negative integer.  The 9-byte fixture
    [txt/text_file.txt] gives 9. *)
Theorem get_file_size_spec (fs : filesystem) (P : path) :
  match lookup fs P with
  | Some (File content _) =>
      FileSystem.get_file_size P fs
        = (Return (Z.of_nat (List.length content)), fs)
      /\ 0 <= Z.of_nat (List.length content)
  | _ => FileSystem.get_file_size P fs = (Raise FileNotFoundError, fs)
  end
  /\ FileSystem.get_file_size text_file fixtures = (Return 9, fixtures).
Proof.
  split; [|reflexivity].
  unfold FileSystem.get_file_size. rewrite bind_is_file.
  destruct (lookup fs P) as [[content mtime| |es]|] eqn:L; try reflexivity.
  cbn [is_file_node negb]. unfold os_path_getsize, bind, os_stat.
  rewrite (lookup_file_resolve _ _ _ _ L). split; [reflexivity | lia].
Qed.

(** C8. Where nothing exists, [is_file], [is_directory] and [is_object]
    all return [False]; on every path each of them returns a boolean
    and never raises. *)
Theorem predicates_absent_false (fs : filesystem) (P : path) :
  (lookup fs P = None ->
   FileSystem.is_file P fs = (Return false, fs) /\
   FileSystem.is_directory P fs = (Return false, fs) /\
   FileSystem.is_object P fs = (Return false, fs))
  /\
  (exists b1 b2 b3,
     FileSystem.is_file P fs = (Return b1, fs) /\
     FileSystem.is_directory P fs = (Return b2, fs) /\
     FileSystem.is_object P fs = (Return b3, fs)).
Proof.
  rewrite is_file_run, is_directory_run, is_object_run. split.
  - intros ->. repeat split.
  - do 3 eexists. repeat split.
Qed.

Lemma predicates_absent_false_witness :
  lookup fixtures this_is_not_a_file = None /\
  FileSystem.is_file this_is_not_a_file fixtures = (Return false, fixtures) /\
  FileSystem.is_directory this_is_not_a_file fixtures
    = (Return false, fixtures) /\
  FileSystem.is_object this_is_not_a_file fixtures = (Return false, fixtures).
Proof.
  split; [reflexivity|].
  apply (proj1 (predicates_absent_false fixtures this_is_not_a_file)).
  reflexivity.
Defined.

(** C3. [is_utf8_encoded] raises [FileNotFoundError] exactly when the
    path is not an existing regular file; on a regular file it returns
    a boolean, [True] if and only if the whole content is valid UTF-8,
    and a decoding failure is reported as [False], not raised. *)
Theorem is_utf8_encoded_spec (fs : filesystem) (P : path) :
  match lookup fs P with
  | Some (File content _) =>
      exists b, FileSystem.is_utf8_encoded P fs = (Return b, fs) /\
                (b = true <-> Utf8.valid_utf8 content)
  | _ => FileSystem.is_utf8_encoded P fs = (Raise FileNotFoundError, fs)
  end.
Proof.
  unfold FileSystem.is_utf8_encoded. rewrite bind_is_file.
  destruct (lookup fs P) as [[content mtime| |es]|] eqn:L; try reflexivity.
  cbn [is_file_node negb].
  unfold bind, try_except, open_read, FileSystem.bytes_decode_utf8.
  rewrite (lookup_file_resolve _ _ _ _ L).
  pose proof (Utf8Facts.utf8_decode_valid content) as V.
  destruct (Utf8.utf8_decode (map Utf8.Z_of_byte content)) as [text|];
    cbn; eexists; (split; [reflexivity|]).
  - split; [intros _; apply V; eauto | reflexivity].
  - split; [discriminate|]. intros H. apply V in H. now destruct H.
Qed.

(** C9. The seven queries leave the file system as it was, whether
    they return or raise. *)
Theorem queries_frame (fs : filesystem) (P : path) (b : bool) :
  snd (FileSystem.is_file P fs) = fs /\
  snd (FileSystem.is_directory P fs) = fs /\
  snd (FileSystem.is_object P fs) = fs /\
  snd (FileSystem.get_file_size P fs) = fs /\
  snd (FileSystem.get_file_timestamp P fs) = fs /\
  snd (FileSystem.is_utf8_encoded P fs) = fs /\
  snd (FileSystem.list_files P b fs) = fs.
Proof.
  repeat split.
  - apply frame_is_file.
  - apply frame_is_directory.
  - apply frame_is_object.
  - apply frame_get_file_size.
  - apply frame_get_file_timestamp.
  - apply frame_is_utf8_encoded.
  - apply frame_list_files.
Qed.

(** C10. When [create_directory] raises [FileExistsError], or
    [remove_directory] raises [FileNotFoundError], the file system is
    unchanged: the check precedes the mutating call, whose own errors
    surface as a plain [OSError]. *)
Theorem precondition_failure_atomic (fs : filesystem) (P : path) :
  (fst (FileSystem.create_directory P fs) = Raise FileExistsError ->
   snd (FileSystem.create_directory P fs) = fs)
  /\
  (fst (FileSystem.remove_directory P fs) = Raise FileNotFoundError ->
   snd (FileSystem.remove_directory P fs) = fs).
Proof.
  split.
  - unfold FileSystem.create_directory. rewrite bind_is_object.
    destruct (lookup fs P); [reflexivity|].
    unfold try_except. destruct (os_makedirs P fs) as [[[]|e] s'].
    + discriminate.
    + destruct e; cbn; discriminate.
  - unfold FileSystem.remove_directory. rewrite bind_is_directory.
    destruct (match lookup fs P with Some n => is_dir_node n | None => false end);
      [|reflexivity].
    cbn [negb]. unfold try_except.
    destruct (shutil_rmtree P fs) as [[[]|e] s'].
    + discriminate.
    + destruct e; cbn; discriminate.
Qed.

Lemma precondition_failure_atomic_witness :
  (fst (FileSystem.create_directory text_file fixtures)
     = Raise FileExistsError /\
   snd (FileSystem.create_directory text_file fixtures) = fixtures)
  /\
  (fst (FileSystem.remove_directory text_file fixtures)
     = Raise FileNotFoundError /\
   snd (FileSystem.remove_directory text_file fixtures) = fixtures).
Proof.
  destruct (precondition_failure_atomic fixtures text_file) as [Hc Hr].
  split; (split; [reflexivity|]); [apply Hc | apply Hr]; reflexivity.
Defined.

Lemma get_file_timestamp_run fs P content mtime :
  lookup fs P = Some (File content mtime) ->
  FileSystem.get_file_timestamp P fs =
  (match Datetime.fromtimestamp_utc
           (Datetime.int_of_float (Datetime.st_mtime_of mtime)) with
   | Return dt => Return (Datetime.isoformat dt)
   | Raise e => Raise e
   end, fs).
Proof.
  intros L. unfold FileSystem.get_file_timestamp. rewrite bind_is_file, L.
  cbn [is_file_node negb]. unfold bind, os_stat, lift.
  rewrite (lookup_file_resolve _ _ _ _ L). cbn [stat_of st_mtime].
  now destruct (Datetime.fromtimestamp_utc _).
Qed.




(* ================================================================== *)
(** ** Directory entries, path resolution and the two mutations *)

Section Entries.
Variables (name : string) (x : node).

Lemma assoc_app n es es' :
  assoc n (es ++ es') =
  match assoc n es with Some y => Some y | None => assoc n es' end.
Proof.
  induction es as [|[n0 y] es IH]; [reflexivity|].
  cbn. now destruct (String.eqb n0 n).
Qed.

Lemma assoc_set_entry_same es :
  assoc name (set_entry name x es) =
  match assoc name es with Some _ => Some x | None => None end.
Proof.
  induction es as [|[n0 y] es IH]; [reflexivity|].
  cbn. destruct (String.eqb n0 name) eqn:E; cbn; rewrite E; [reflexivity|exact IH].
Qed.

Lemma assoc_set_entry_other n es :
  n <> name -> assoc n (set_entry name x es) = assoc n es.
Proof.
  intros Hn. induction es as [|[n0 y] es IH]; [reflexivity|].
  cbn. destruct (String.eqb n0 name) eqn:E; cbn.
  - apply String.eqb_eq in E. subst n0.
    destruct (String.eqb name n) eqn:E'; [|reflexivity].
    apply String.eqb_eq in E'. congruence.
  - rewrite IH. reflexivity.
Qed.

Lemma set_entry_twice y es :
  set_entry name x (set_entry name y es) = set_entry name x es.
Proof.
  induction es as [|[n0 z] es IH]; [reflexivity|].
  cbn. destruct (String.eqb n0 name) eqn:E; cbn; rewrite E; [reflexivity|].
  now rewrite IH.
Qed.

Lemma set_entry_id es : assoc name es = Some x -> set_entry name x es = es.
Proof.
  induction es as [|[n0 z] es IH]; [reflexivity|].
  cbn. destruct (String.eqb n0 name) eqn:E.
  - now intros [= ->].
  - intros H. now rewrite IH.
Qed.

Lemma set_entry_app y es :
  assoc name es = None ->
  set_entry name x (es ++ [(name, y)]) = es ++ [(name, x)].
Proof.
  induction es as [|[n0 z] es IH]; cbn.
  - now rewrite String.eqb_refl.
  - destruct (String.eqb n0 name); [discriminate|].
    intros H. now rewrite IH.
Qed.

Lemma assoc_del_entry_same es : assoc name (del_entry name es) = None.
Proof.
  unfold del_entry. induction es as [|[n0 z] es IH]; [reflexivity|].
  cbn. destruct (String.eqb n0 name) eqn:E; cbn; [exact IH|].
  now rewrite E.
Qed.

Lemma assoc_del_entry_other n es :
  n <> name -> assoc n (del_entry name es) = assoc n es.
Proof.
  intros Hn. unfold del_entry.
  induction es as [|[n0 z] es IH]; [reflexivity|].
  cbn. destruct (String.eqb n0 name) eqn:E; cbn.
  - apply String.eqb_eq in E. subst n0.
    destruct (String.eqb name n) eqn:E'; [|exact IH].
    apply String.eqb_eq in E'. congruence.
  - now rewrite IH.
Qed.

Lemma assoc_in n es y : assoc n es = Some y -> In (n, y) es.
Proof.
  induction es as [|[n0 z] es IH]; [discriminate|].
  cbn. destruct (String.eqb n0 n) eqn:E.
  - apply String.eqb_eq in E. intros [= ->]. left. now subst.
  - intros H. right. auto.
Qed.

End Entries.

(** Resolution of a path extended by one component. *)
Lemma resolve_snoc name p : forall es,
  resolve es (p ++ [name]) =
  match resolve es p with
  | inr (Dir d) =>
      if bad_name name then inl (name_error name)
      else
        match assoc name d with
        | Some n => inr n
        | None => inl FileNotFoundError
        end
  | inr _ => inl NotADirectoryError
  | inl e => inl e
  end.
Proof.
  induction p as [|c p IH]; intros es.
  - cbn. destruct (bad_name name); [reflexivity|].
    destruct (assoc name es) as [[]|]; reflexivity.
  - cbn [app resolve]. destruct (bad_name c); [reflexivity|].
    destruct (assoc c es) as [[]|] eqn:A; try reflexivity.
    + destruct p; reflexivity.
    + destruct p; reflexivity.
    + apply IH.
Qed.

Lemma resolve_app p : forall es q,
  resolve es (p ++ q) =
  match resolve es p with
  | inr (Dir d) => resolve d q
  | inr n => match q with [] => inr n | _ :: _ => inl NotADirectoryError end
  | inl e => inl e
  end.
Proof.
  induction p as [|c p IH]; intros es q; [reflexivity|].
  cbn [app resolve]. destruct (bad_name c); [reflexivity|].
  destruct (assoc c es) as [[]|] eqn:A; try reflexivity.
  - destruct p; cbn; [|reflexivity]. now destruct q.
  - destruct p; cbn; [|reflexivity]. now destruct q.
  - apply IH.
Qed.

(** ** Names that cannot be *)

Lemma valid_path_app p q :
  valid_path (p ++ q) = valid_path p && valid_path q.
Proof. apply forallb_app. Qed.

Lemma valid_path_cons c p :
  valid_path (c :: p) = true <-> bad_name c = false /\ valid_path p = true.
Proof.
  unfold valid_path. cbn [forallb]. rewrite andb_true_iff, negb_true_iff.
  reflexivity.
Qed.

Lemma valid_path_no_nul p : valid_path p = true -> existsb has_nul p = false.
Proof.
  induction p as [|c p IH]; [reflexivity|].
  intros V. apply valid_path_cons in V. destruct V as [Hc V].
  cbn [existsb]. rewrite (IH V). unfold bad_name in Hc.
  apply orb_false_iff in Hc. destruct Hc as [-> _]. reflexivity.
Qed.

Lemma name_error_cases s : name_error s = ValueError \/ name_error s = OSError.
Proof. unfold name_error. destruct (has_nul s); auto. Qed.



Lemma mkdir_in_valid p : forall es es',
  mkdir_in es p = inr es' -> valid_path p = true.
Proof.
  induction p as [|c p IH]; intros es es'; [reflexivity|].
  cbn [mkdir_in]. destruct (bad_name c) eqn:B; [discriminate|].
  intros H. apply valid_path_cons. split; [exact B|].
  destruct p as [|c' p]; [reflexivity|].
  destruct (assoc c es) as [[]|]; try discriminate.
  destruct (mkdir_in entries (c' :: p)) as [e|es''] eqn:M; [discriminate|].
  exact (IH _ _ M).
Qed.


Lemma snoc_cons {A} (p : list A) (a : A) : exists c r, p ++ [a] = c :: r.
Proof. destruct p; cbn; eauto. Qed.

Lemma chain_snoc name p :
  valid_path (p ++ [name]) = true ->
  mkdir_in (chain p) (p ++ [name]) = inr (chain (p ++ [name])).
Proof.
  induction p as [|c p IH]; intros V.
  - apply valid_path_cons in V. destruct V as [B _].
    cbn. now rewrite B.
  - cbn [app] in V. apply valid_path_cons in V. destruct V as [B V].
    cbn [app chain mkdir_in]. rewrite B.
    destruct (snoc_cons p name) as (c' & r & E).
    rewrite E in *. cbn [assoc]. rewrite String.eqb_refl, (IH V).
    cbn [set_entry]. now rewrite String.eqb_refl.
Qed.

Lemma mkdir_in_snoc name p : forall es,
  mkdir_in es (p ++ [name]) =
  match resolve es p with
  | inr (Dir d) =>
      if bad_name name then inl (name_error name)
      else
        match assoc name d with
        | Some _ => inl FileExistsError
        | None => inr (mkdirs_in es (p ++ [name]))
        end
  | inr _ => inl NotADirectoryError
  | inl e => inl e
  end.
Proof.
  induction p as [|c p IH]; intros es.
  - cbn. destruct (bad_name name); [reflexivity|].
    destruct (assoc name es); reflexivity.
  - cbn [app mkdir_in resolve mkdirs_in].
    destruct (bad_name c); [reflexivity|].
    destruct (snoc_cons p name) as (c' & r & E).
    rewrite E. rewrite <- E. clear E c' r.
    destruct (assoc c es) as [[]|] eqn:A.
    + destruct p; reflexivity.
    + destruct p; reflexivity.
    + rewrite IH. destruct (resolve entries p) as [e|[]]; try reflexivity.
      destruct (bad_name name); [reflexivity|].
      destruct (assoc name entries0); reflexivity.
    + reflexivity.
Qed.

(** [mkdirs_in] does nothing along a path that already leads to a
    directory. *)
Lemma mkdirs_in_existing p : forall es d,
  resolve es p = inr (Dir d) -> mkdirs_in es p = es.
Proof.
  induction p as [|c p IH]; intros es d; [reflexivity|].
  cbn. destruct (bad_name c); [intros; discriminate|].
  destruct (assoc c es) as [[]|] eqn:A; try (intros; discriminate).
  - destruct p; intros; discriminate.
  - destruct p; intros; discriminate.
  - intros H. rewrite (IH _ _ H). now apply set_entry_id.
Qed.

(** Creating the leaf after its missing ancestors gives the state
    [mkdirs_in] describes. *)
Lemma mkdir_after_mkdirs name p : forall es,
  resolve es (p ++ [name]) = inl FileNotFoundError ->
  valid_path (p ++ [name]) = true ->
  mkdir_in (mkdirs_in es p) (p ++ [name]) = inr (mkdirs_in es (p ++ [name])).
Proof.
  induction p as [|c p IH]; intros es.
  - intros H V. apply valid_path_cons in V. destruct V as [B _].
    cbn in *. rewrite B in *.
    destruct (assoc name es) as [[]|]; try discriminate. reflexivity.
  - intros H V. cbn [app] in V. pose proof V as V'.
    apply valid_path_cons in V. destruct V as [B V].
    cbn [app mkdir_in resolve mkdirs_in] in *. rewrite B in *.
    destruct (snoc_cons p name) as (c' & r & E).
    destruct (assoc c es) as [[]|] eqn:A.
    + rewrite E in H. discriminate.
    + rewrite E in H. discriminate.
    + rewrite E. rewrite <- E.
      rewrite assoc_set_entry_same, A, (IH _ H V).
      now rewrite set_entry_twice.
    + rewrite E. rewrite <- E.
      rewrite assoc_app, A. cbn [assoc]. rewrite String.eqb_refl.
      rewrite (chain_snoc _ _ V). now rewrite set_entry_app.
Qed.

(** The errors of resolution: a missing component, a component below
    something that is not a directory, or a name that cannot be. *)
Lemma resolve_errors p : forall es e,
  resolve es p = inl e ->
  e = FileNotFoundError \/ e = NotADirectoryError \/
  (valid_path p = false /\ (e = ValueError \/ e = OSError)).
Proof.
  induction p as [|c p IH]; intros es e; [discriminate|].
  cbn [resolve]. destruct (bad_name c) eqn:B.
  { intros [= <-]. right. right. split.
    - unfold valid_path. cbn [forallb]. now rewrite B.
    - apply name_error_cases. }
  destruct (assoc c es) as [[]|].
  - destruct p; intros [= <-]; auto.
  - destruct p; intros [= <-]; auto.
  - intros H. destruct (IH _ _ H) as [?|[?|[V ?]]]; auto.
    right. right. split; [|assumption].
    unfold valid_path in *. cbn [forallb]. now rewrite V, andb_false_r.
  - intros [= <-]; auto.
Qed.

Lemma os_path_exists_run p fs :
  os_path_exists p fs =
  (Return match resolve fs p with inr _ => true | inl _ => false end, fs).
Proof.
  unfold os_path_exists, try_except, bind, os_stat.
  destruct (resolve fs p) as [e|n]; [destruct e|]; reflexivity.
Qed.

Lemma makedirs_rev_creates rname : forall fs,
  resolve fs (rev rname) = inl FileNotFoundError ->
  valid_path (rev rname) = true ->
  makedirs_rev rname fs = (Return tt, mkdirs_in fs (rev rname)).
Proof.
  induction rname as [|tail rhead IH]; intros fs H V; [discriminate|].
  cbn [makedirs_rev rev] in *. unfold bind at 1. rewrite os_path_exists_run.
  pose proof (mkdir_after_mkdirs tail (rev rhead) fs H V) as M.
  pose proof (valid_path_no_nul _ V) as N.
  rewrite valid_path_app in V. apply andb_true_iff in V.
  destruct V as [Vh Vt]. apply valid_path_cons in Vt. destruct Vt as [Bt _].
  rewrite resolve_snoc, Bt in H.
  destruct (resolve fs (rev rhead)) as [e|[| |d]] eqn:R; try discriminate.
  - injection H as ->. cbn [negb]. unfold bind, try_except.
    rewrite (IH fs R Vh). unfold os_mkdir. now rewrite N, M.
  - cbn [negb]. unfold bind, ret, os_mkdir.
    rewrite (mkdirs_in_existing _ _ _ R) in M. now rewrite N, M.
Qed.

(** Below something that is not a directory nothing is created. *)
Lemma makedirs_rev_blocked rname : forall fs,
  resolve fs (rev rname) = inl NotADirectoryError ->
  exists e,
    makedirs_rev rname fs = (Raise e, fs) /\
    (e = NotADirectoryError \/
     (e = ValueError /\ existsb has_nul (rev rname) = true)).
Proof.
  induction rname as [|tail rhead IH]; intros fs H; [discriminate|].
  cbn [makedirs_rev rev] in *. unfold bind at 1. rewrite os_path_exists_run.
  pose proof (mkdir_in_snoc tail (rev rhead) fs) as M.
  rewrite resolve_snoc in H.
  assert (Leaf : (exists n, resolve fs (rev rhead) = inr n /\
                            is_dir_node n = false) ->
            exists e,
              os_mkdir (rev rhead ++ [tail]) fs = (Raise e, fs) /\
              (e = NotADirectoryError \/
               (e = ValueError /\
                existsb has_nul (rev rhead ++ [tail]) = true))).
  { intros (n & R & Hn). unfold os_mkdir.
    destruct (existsb has_nul (rev rhead ++ [tail])) eqn:N; [eauto|].
    rewrite M, R. destruct n; [eauto | eauto | discriminate]. }
  destruct (resolve fs (rev rhead)) as [e|[| |d]] eqn:R.
  - injection H as ->. cbn [negb]. unfold bind, try_except.
    destruct (IH fs R) as (e & -> & [-> | [-> N]]).
    + exists NotADirectoryError. split; [reflexivity | now left].
    + exists ValueError. split; [reflexivity|]. right. split; [reflexivity|].
      rewrite existsb_app, N. reflexivity.
  - cbn [negb]. unfold bind, ret. apply Leaf. eauto.
  - cbn [negb]. unfold bind, ret. apply Leaf. eauto.
  - destruct (bad_name tail) eqn:B.
    + destruct (name_error_cases tail) as [E|E]; rewrite E in H; discriminate.
    + destruct (assoc tail d); discriminate.
Qed.

(** [os.makedirs] returns only on paths whose names can all be. *)
Lemma makedirs_rev_returns rname fs u fs' :
  makedirs_rev rname fs = (Return u, fs') -> valid_path (rev rname) = true.
Proof.
  destruct rname as [|tail rhead].
  - cbn. discriminate.
  - cbn [makedirs_rev rev]. unfold bind at 1. rewrite os_path_exists_run.
    unfold bind.
    destruct ((if negb match resolve fs (rev rhead) with
                       | inr _ => true | inl _ => false end
               then try_except (makedirs_rev rhead)
                      (fun e => match e with
                                | FileExistsError => ret tt
                                | _ => raise e
                                end)
               else ret tt) fs) as [[[]|e] s]; [|discriminate].
    unfold os_mkdir.
    destruct (existsb has_nul (rev rhead ++ [tail])); [discriminate|].
    destruct (mkdir_in s (rev rhead ++ [tail])) as [e|s'] eqn:M;
      [discriminate|].
    intros _. exact (mkdir_in_valid _ _ _ M).
Qed.



(** What [create_directory] does, by the way its path resolves. *)
Lemma create_directory_exists P fs n :
  lookup fs P = Some n ->
  FileSystem.create_directory P fs = (Raise FileExistsError, fs).
Proof.
  intros L. unfold FileSystem.create_directory.
  now rewrite bind_is_object, L.
Qed.

Lemma create_directory_absent P fs :
  lookup fs P = None ->
  FileSystem.create_directory P fs =
  match makedirs_rev (rev P) fs with
  | (Return u, s) => (Return u, s)
  | (Raise e, s) => (Raise (if isinstance_OSError e then OSError else e), s)
  end.
Proof.
  intros L. unfold FileSystem.create_directory.
  rewrite bind_is_object, L. cbn [negb]. unfold try_except, os_makedirs.
  destruct (makedirs_rev (rev P) fs) as [[u|e] s]; [reflexivity|].
  now destruct (isinstance_OSError e).
Qed.

Lemma create_directory_creates P fs :
  resolve fs P = inl FileNotFoundError -> valid_path P = true ->
  FileSystem.create_directory P fs = (Return tt, mkdirs_in fs P).
Proof.
  intros R V. rewrite create_directory_absent by (unfold lookup; now rewrite R).
  rewrite makedirs_rev_creates; rewrite rev_involutive; auto.
Qed.

Lemma create_directory_blocked P fs :
  resolve fs P = inl NotADirectoryError ->
  exists e,
    FileSystem.create_directory P fs = (Raise e, fs) /\
    (e = OSError \/ (e = ValueError /\ existsb has_nul P = true)).
Proof.
  intros R. rewrite create_directory_absent by (unfold lookup; now rewrite R).
  destruct (makedirs_rev_blocked (rev P) fs) as (e & -> & He);
    [now rewrite rev_involutive|].
  rewrite rev_involutive in He. destruct He as [-> | [-> N]]; eauto.
Qed.


Lemma create_directory_returns P fs u fs' :
  FileSystem.create_directory P fs = (Return u, fs') ->
  resolve fs P = inl FileNotFoundError /\ valid_path P = true /\
  fs' = mkdirs_in fs P.
Proof.
  intros H.
  destruct (lookup fs P) as [n|] eqn:L.
  { rewrite (create_directory_exists _ _ _ L) in H. discriminate. }
  assert (V : valid_path P = true).
  { rewrite (create_directory_absent _ _ L) in H.
    destruct (makedirs_rev (rev P) fs) as [[u0|e0] s] eqn:M; [|discriminate].
    rewrite <- (rev_involutive P). exact (makedirs_rev_returns _ _ _ _ M). }
  unfold lookup in L. destruct (resolve fs P) as [e|n] eqn:R; [|discriminate].
  destruct (resolve_errors _ _ _ R) as [-> | [-> | [V' _]]].
  - rewrite (create_directory_creates _ _ R V) in H.
    injection H as _ <-. auto.
  - destruct (create_directory_blocked _ _ R) as (e & E & _).
    rewrite E in H. discriminate.
  - congruence.
Qed.

Lemma chain_resolve q r :
  valid_path q = true -> resolve (chain (q ++ r)) q = inr (Dir (chain r)).
Proof.
  induction q as [|c q IH]; [reflexivity|].
  intros V. apply valid_path_cons in V. destruct V as [B V].
  cbn. rewrite B, String.eqb_refl. exact (IH V).
Qed.

(** After [mkdirs_in], the target and each of its ancestors is a
    directory. *)
Lemma mkdirs_in_ancestors p : forall es q r,
  resolve es p = inl FileNotFoundError \/ (exists d, resolve es p = inr (Dir d)) ->
  valid_path p = true ->
  p = q ++ r ->
  exists d, resolve (mkdirs_in es p) q = inr (Dir d).
Proof.
  induction p as [|c p IH]; intros es q r H V E.
  - destruct q; [|discriminate]. cbn. eauto.
  - destruct q as [|c0 q]; [cbn; eauto|].
    injection E as <- E. apply valid_path_cons in V. destruct V as [B V].
    cbn [mkdirs_in resolve] in *. rewrite B in *.
    destruct (assoc c es) as [[]|] eqn:A.
    + destruct p; destruct H as [H|[d H]]; discriminate.
    + destruct p; destruct H as [H|[d H]]; discriminate.
    + rewrite assoc_set_entry_same, A. eapply IH; eassumption.
    + rewrite assoc_app, A. cbn [assoc]. rewrite String.eqb_refl.
      subst p. rewrite chain_resolve; [eauto|].
      rewrite valid_path_app in V. now apply andb_true_iff in V.
Qed.

(** [mkdirs_in] keeps every object that was there. *)
Lemma mkdirs_in_keeps p : forall es q n,
  resolve es q = inr n ->
  exists n', resolve (mkdirs_in es p) q = inr n' /\ shallow n' = shallow n.
Proof.
  induction p as [|c p IH]; intros es q n H; [cbn; eauto|].
  destruct q as [|c0 q]; [injection H as <-; cbn; eauto|].
  cbn [mkdirs_in]. destruct (assoc c es) as [[]|] eqn:A; eauto.
  - cbn [resolve] in *. destruct (bad_name c0); [discriminate|].
    destruct (String.eqb c c0) eqn:E.
    + apply String.eqb_eq in E. subst c0.
      rewrite assoc_set_entry_same, A. rewrite A in H. now apply IH.
    + apply String.eqb_neq in E.
      rewrite assoc_set_entry_other by congruence. eauto.
  - cbn [resolve] in *. destruct (bad_name c0); [discriminate|].
    rewrite assoc_app.
    destruct (assoc c0 es); [eauto|discriminate].
Qed.

Lemma chain_resolve_inv p : forall q n,
  resolve (chain p) q = inr n -> exists r, p = q ++ r.
Proof.
  induction p as [|c p IH]; intros [|c0 q] n; cbn; eauto.
  - destruct (bad_name c0); discriminate.
  - destruct (bad_name c0); [discriminate|].
    destruct (String.eqb c c0) eqn:E; [|discriminate].
    apply String.eqb_eq in E. subst c0. intros H.
    destruct (IH _ _ H) as [r ->]. eauto.
Qed.

(** What [mkdirs_in] adds lies on the way to the target. *)
Lemma mkdirs_in_new p : forall es q n,
  resolve (mkdirs_in es p) q = inr n ->
  (exists m, resolve es q = inr m) \/ (exists r, p = q ++ r).
Proof.
  induction p as [|c p IH]; intros es q n H; [cbn in H; eauto|].
  destruct q as [|c0 q]; [right; cbn; eauto|].
  cbn [mkdirs_in] in H. destruct (assoc c es) as [[]|] eqn:A; eauto.
  - cbn [resolve] in *. destruct (bad_name c0); [discriminate|].
    destruct (String.eqb c c0) eqn:E.
    + apply String.eqb_eq in E. subst c0.
      rewrite assoc_set_entry_same, A in H. rewrite A.
      destruct (IH _ _ _ H) as [?|[r ->]]; [now left | right; now exists r].
    + apply String.eqb_neq in E.
      rewrite assoc_set_entry_other in H by congruence. eauto.
  - cbn [resolve] in *. destruct (bad_name c0); [discriminate|].
    rewrite assoc_app in H.
    destruct (assoc c0 es) eqn:A0; [eauto|].
    cbn [assoc] in H. destruct (String.eqb c c0) eqn:E; [|discriminate].
    apply String.eqb_eq in E. subst c0.
    destruct (chain_resolve_inv _ _ _ H) as [r ->]. right. now exists r.
Qed.

(** Nothing is left at or below a removed directory. *)
Lemma remove_in_gone p : forall es d q,
  p <> [] -> resolve es p = inr (Dir d) ->
  resolve (remove_in es p) (p ++ q) = inl FileNotFoundError.
Proof.
  induction p as [|c p IH]; intros es d q Hp H; [congruence|].
  cbn [remove_in app]. cbn [resolve] in H.
  destruct (bad_name c) eqn:B; [discriminate|]. destruct p as [|c' p].
  - cbn. now rewrite B, assoc_del_entry_same.
  - destruct (assoc c es) as [[]|] eqn:A; try discriminate.
    cbn [resolve]. rewrite B, assoc_set_entry_same, A.
    apply (IH _ d); [discriminate | exact H].
Qed.

(** Paths that are not below the removed directory keep what they
    denote. *)
Lemma remove_in_elsewhere p : forall es q,
  (forall r, q <> p ++ r) ->
  observe (remove_in es p) q = observe es q.
Proof.
  unfold observe, lookup.
  induction p as [|c p IH]; intros es q Hq; [now destruct (Hq q)|].
  destruct q as [|c0 q]; [reflexivity|].
  cbn [remove_in]. destruct p as [|c' p].
  - cbn [resolve]. destruct (bad_name c0); [reflexivity|].
    rewrite assoc_del_entry_other; [reflexivity|].
    intros ->. now apply (Hq q).
  - destruct (assoc c es) as [[]|] eqn:A; try reflexivity.
    cbn [resolve]. destruct (bad_name c0); [reflexivity|].
    destruct (String.eqb c c0) eqn:E.
    + apply String.eqb_eq in E. subst c0.
      rewrite assoc_set_entry_same, A. apply IH.
      intros r ->. now apply (Hq r).
    + apply String.eqb_neq in E.
      rewrite assoc_set_entry_other by congruence. reflexivity.
Qed.

Lemma remove_directory_run P fs :
  FileSystem.remove_directory P fs =
  match lookup fs P with
  | Some (Dir _) =>
      match P with
      | [] => (Raise OSError, remove_in fs P)
      | _ :: _ => (Return tt, remove_in fs P)
      end
  | _ => (Raise FileNotFoundError, fs)
  end.
Proof.
  unfold FileSystem.remove_directory. rewrite bind_is_directory.
  unfold lookup, try_except, shutil_rmtree.
  destruct (resolve fs P) as [e|[| |d]] eqn:R; try reflexivity.
  cbn [is_dir_node negb]. rewrite R. now destruct P.
Qed.



(* ================================================================== *)
(** ** The two mutating methods *)




(** C6. [remove_directory] raises [FileNotFoundError] exactly when the
    path is not an existing directory; on an existing directory other
    than the root it returns; and whenever it returns, nothing exists
    any more at the path or anywhere below it, while every path that
    is not below it denotes what it did before. *)
Theorem remove_directory_spec (fs : filesystem) (P : path) :
  (fst (FileSystem.remove_directory P fs) = Raise FileNotFoundError
   <-> FileSystem.is_directory P fs = (Return false, fs))
  /\
  (forall d, lookup fs P = Some (Dir d) -> P <> [] ->
     exists fs', FileSystem.remove_directory P fs = (Return tt, fs'))
  /\
  (forall fs', FileSystem.remove_directory P fs = (Return tt, fs') ->
     (forall q, FileSystem.is_object (P ++ q) fs' = (Return false, fs')) /\
     (forall q, (forall r, q <> P ++ r) -> observe fs' q = observe fs q)).
Proof.
  rewrite remove_directory_run, is_directory_run. split; [|split].
  - destruct (lookup fs P) as [[content mtime| |d]|]; cbn;
      try (split; reflexivity).
    destruct P; cbn; split; intros; discriminate.
  - intros d -> HP. destruct P; [congruence|]. eauto.
  - intros fs'. destruct (lookup fs P) as [[content mtime| |d]|] eqn:L;
      try discriminate.
    destruct P as [|c P]; [discriminate|]. intros E.
    apply (f_equal snd) in E. cbn [snd] in E. subst fs'. split.
    + intros q. rewrite is_object_run. unfold lookup in *.
      destruct (resolve fs (c :: P)) as [e|n] eqn:R; [discriminate|].
      injection L as ->.
      rewrite (remove_in_gone (c :: P) fs d q); [reflexivity | discriminate | exact R].
    + intros q Hq. now apply remove_in_elsewhere.
Qed.

Lemma remove_directory_spec_witness :
  lookup fixtures tex_dir <> None /\
  (exists fs',
     FileSystem.remove_directory tex_dir fixtures = (Return tt, fs') /\
     FileSystem.is_object tex_dir fs' = (Return false, fs') /\
     FileSystem.is_object (tex_dir ++ ["latex2e_example.tex"%string]) fs'
       = (Return false, fs') /\
     observe fs' text_file = observe fixtures text_file).
Proof.
  split; [discriminate|].
  destruct (remove_directory_spec fixtures tex_dir) as (_ & Hret & Hgone).
  destruct (Hret _ eq_refl ltac:(discriminate)) as [fs' Hrun].
  destruct (Hgone fs' Hrun) as [Hobj Hframe].
  exists fs'. split; [exact Hrun|]. split; [|split].
  - rewrite <- (app_nil_r tex_dir) at 1. apply Hobj.
  - apply Hobj.
  - apply Hframe. intros r. discriminate.
Defined.

(* ================================================================== *)
(** ** Directory listings *)

(** Induction on objects, with the hypothesis available for every
    entry of a directory. *)
Lemma node_ind_entries (Q : node -> Prop) :
  (forall content mtime, Q (File content mtime)) ->
  Q Special ->
  (forall es, Forall (fun e => Q (snd e)) es -> Q (Dir es)) ->
  forall n, Q n.
Proof.
  intros HF HS HD. fix IH 1. intros [content mtime| |es].
  - apply HF.
  - apply HS.
  - apply HD. induction es as [|e es IHes]; constructor.
    + apply IH.
    + exact IHes.
Qed.

Lemma commonprefix_app d x : commonprefix d (d ++ x) = d.
Proof.
  induction d as [|c d IH]; [now destruct x|].
  cbn. now rewrite String.eqb_refl, IH.
Qed.

Lemma relpath_below d x : x <> [] -> os_path_relpath (d ++ x) d = x.
Proof.
  intros Hx. unfold os_path_relpath. rewrite commonprefix_app.
  rewrite Nat.sub_diag. cbn [repeat app].
  rewrite skipn_app, Nat.sub_diag, skipn_all. cbn [skipn app].
  now destruct x.
Qed.

Section Walk.
Variable D : path.

Lemma walk_rel_files n : forall q,
  flat_map (FileSystem.relative D) (walk_node (D ++ q) n)
  = map (app q) (rel_files n).
Proof.
  induction n as [content mtime| |es IH] using node_ind_entries;
    intros q; try reflexivity.
  cbn [walk_node rel_files flat_map]. rewrite map_app. f_equal.
  - unfold FileSystem.relative, os_path_join. rewrite map_map. apply map_ext.
    intros f. rewrite <- app_assoc. apply relpath_below.
    now destruct q.
  - induction IH as [|e es He _ IHes]; [reflexivity|].
    cbn [flat_map]. rewrite flat_map_app, map_app. f_equal; [|exact IHes].
    unfold os_path_join. rewrite <- app_assoc, He, map_map.
    apply map_ext. intros x. now rewrite <- app_assoc.
Qed.

End Walk.

Lemma wf_node_entry es e : wf_node (Dir es) -> In e es -> wf_node (snd e).
Proof.
  cbn [wf_node]. intros [_ W] Hin. induction es as [|e0 es IH]; [easy|].
  cbn in W. destruct W as [W0 W]. destruct Hin as [<-|Hin]; auto.
Qed.

Lemma assoc_of_in n x es :
  NoDup (map fst es) -> In (n, x) es -> assoc n es = Some x.
Proof.
  induction es as [|[n0 y] es IH]; [easy|].
  cbn [map fst assoc]. intros ND [E|Hin].
  - injection E as -> ->. now rewrite String.eqb_refl.
  - apply NoDup_cons_iff in ND. destruct ND as [Hn ND].
    destruct (String.eqb n0 n) eqn:E; [|auto].
    apply String.eqb_eq in E. subst n0. exfalso. apply Hn.
    apply in_map_iff. now exists (n, x).
Qed.

Lemma in_filenames f es :
  In f (filenames es) <-> exists x, In (f, x) es /\ is_dir_node x = false.
Proof.
  unfold filenames. rewrite in_map_iff. split.
  - intros ([n x] & <- & Hin). apply filter_In in Hin. destruct Hin as [Hin Hd].
    exists x. split; [exact Hin|]. now apply negb_true_iff in Hd.
  - intros (x & Hin & Hd). exists (f, x). split; [reflexivity|].
    apply filter_In. split; [exact Hin|]. cbn. now rewrite Hd.
Qed.

(** Everything below a directory that is not itself a directory is
    listed ... *)
Lemma rel_files_complete p : forall es n,
  resolve es p = inr n -> is_dir_node n = false ->
  In p (rel_files (Dir es)).
Proof.
  induction p as [|c p IH]; intros es n; [intros [= <-]; discriminate|].
  cbn [resolve rel_files]. intros R Hn. apply in_or_app.
  destruct (bad_name c); [discriminate|].
  destruct (assoc c es) as [x|] eqn:A; [|discriminate].
  apply assoc_in in A.
  assert (Hleaf : is_dir_node x = false ->
            match p with [] => inr x | _ :: _ => inl NotADirectoryError end
            = inr n ->
            In (c :: p) (map (fun f => [f]) (filenames es))).
  { intros Hx E. destruct p; [|discriminate].
    apply (in_map (fun f => [f]) _ c). apply in_filenames. eauto. }
  destruct x as [content mtime| |es']; [left; now apply Hleaf .. |].
  right. apply in_flat_map. exists (c, Dir es'). split; [exact A|].
  cbn [fst snd]. apply (in_map (cons c)). eapply IH; eassumption.
Qed.

Lemma good_names_entry es e :
  good_names (Dir es) -> In e es ->
  bad_name (fst e) = false /\ good_names (snd e).
Proof.
  cbn [good_names]. intros G Hin. induction es as [|e0 es IH]; [easy|].
  cbn in G. destruct G as (B0 & G0 & G). destruct Hin as [<-|Hin]; auto.
Qed.

(** ... and, in a tree whose directories bind every name once and
    bind no name that cannot be, nothing else is. *)
Lemma rel_files_sound p : forall es,
  wf_node (Dir es) -> good_names (Dir es) -> In p (rel_files (Dir es)) ->
  exists n, resolve es p = inr n /\ is_dir_node n = false.
Proof.
  induction p as [|c p IH]; intros es W G Hin; cbn [rel_files] in Hin;
    apply in_app_or in Hin; destruct Hin as [Hin|Hin].
  - apply in_map_iff in Hin. now destruct Hin as (f & [=] & _).
  - apply in_flat_map in Hin. destruct Hin as (e & _ & Hin).
    apply in_map_iff in Hin. now destruct Hin as (x & [=] & _).
  - apply in_map_iff in Hin. destruct Hin as (f & [= -> <-] & Hf).
    apply in_filenames in Hf. destruct Hf as (x & Hx & Hd).
    destruct (good_names_entry _ _ G Hx) as [B _]. cbn [fst] in B.
    exists x. cbn [resolve]. rewrite B, (assoc_of_in _ _ _ (proj1 W) Hx).
    split; [now destruct x | exact Hd].
  - apply in_flat_map in Hin. destruct Hin as ([c0 x] & He & Hin).
    apply in_map_iff in Hin. cbn [fst snd] in Hin.
    destruct Hin as (p' & [= -> ->] & Hp).
    pose proof (wf_node_entry _ _ W He) as Wx. cbn [snd] in Wx.
    destruct (good_names_entry _ _ G He) as [B Gx]. cbn [fst snd] in B, Gx.
    cbn [resolve]. rewrite B, (assoc_of_in _ _ _ (proj1 W) He).
    destruct x as [content mtime| |es']; [destruct Hp .. |].
    now apply IH.
Qed.

Lemma wf_resolve p : forall es n,
  wf_node (Dir es) -> resolve es p = inr n -> wf_node n.
Proof.
  induction p as [|c p IH]; intros es n W; [now intros [= <-]|].
  cbn [resolve]. destruct (bad_name c); [discriminate|].
  destruct (assoc c es) as [x|] eqn:A; [|discriminate].
  apply assoc_in in A. pose proof (wf_node_entry _ _ W A) as Wx.
  cbn [snd] in Wx. destruct x as [content mtime| |es'].
  - destruct p; now intros [= <-].
  - destruct p; now intros [= <-].
  - now apply IH.
Qed.

Lemma good_names_resolve p : forall es n,
  good_names (Dir es) -> resolve es p = inr n -> good_names n.
Proof.
  induction p as [|c p IH]; intros es n G; [now intros [= <-]|].
  cbn [resolve]. destruct (bad_name c); [discriminate|].
  destruct (assoc c es) as [x|] eqn:A; [|discriminate].
  apply assoc_in in A. destruct (good_names_entry _ _ G A) as [_ Gx].
  cbn [snd] in Gx. destruct x as [content mtime| |es'].
  - destruct p; now intros [= <-].
  - destruct p; now intros [= <-].
  - now apply IH.
Qed.

Lemma list_files_not_a_directory D b fs :
  match lookup fs D with Some (Dir _) => False | _ => True end ->
  FileSystem.list_files D b fs = (Raise FileNotFoundError, fs).
Proof.
  intros H. unfold FileSystem.list_files. rewrite bind_is_directory.
  now destruct (lookup fs D) as [[]|].
Qed.

Lemma list_files_flat_run D fs d :
  lookup fs D = Some (Dir d) ->
  FileSystem.list_files D false fs =
  (Return (map (fun f => [f])
             (filter (fun f => match lookup fs (os_path_join D f) with
                               | Some n => is_file_node n
                               | None => false
                               end) (map fst d))), fs).
Proof.
  intros L. unfold FileSystem.list_files. rewrite bind_is_directory, L.
  cbn [is_dir_node negb]. unfold bind at 1, os_listdir.
  unfold lookup in L. destruct (resolve fs D) as [e|n]; [discriminate|].
  injection L as ->. unfold bind. now rewrite filterM_is_file.
Qed.

Lemma list_files_recursive_run D fs d :
  lookup fs D = Some (Dir d) ->
  FileSystem.list_files D true fs = (Return (rel_files (Dir d)), fs).
Proof.
  intros L. unfold FileSystem.list_files. rewrite bind_is_directory, L.
  cbn [is_dir_node negb]. unfold bind, os_walk, ret.
  unfold lookup in L. destruct (resolve fs D) as [e|n]; [discriminate|].
  injection L as ->. f_equal. f_equal.
  pose proof (walk_rel_files D (Dir d) []) as H.
  rewrite app_nil_r in H. cbn [app] in H. rewrite map_id in H.
  rewrite <- H. apply flat_map_ext. now intros [[root ds] files].
Qed.

(** The flat listing: exactly the names of the regular files directly
    in the directory. *)
Theorem list_files_flat_spec D fs d :
  lookup fs D = Some (Dir d) ->
  exists l,
    FileSystem.list_files D false fs = (Return l, fs) /\
    forall p, In p l <->
      exists f, p = [f] /\
        FileSystem.is_file (os_path_join D f) fs = (Return true, fs).
Proof.
  intros L. eexists. split; [apply (list_files_flat_run _ _ _ L)|].
  intros p. rewrite in_map_iff. unfold lookup in L.
  destruct (resolve fs D) as [e|n] eqn:R; [discriminate|]. injection L as ->.
  split.
  - intros (f & <- & Hf). apply filter_In in Hf. destruct Hf as [_ Hf].
    exists f. split; [reflexivity|]. rewrite is_file_run. now rewrite Hf.
  - intros (f & -> & Hf). exists f. split; [reflexivity|].
    rewrite is_file_run in Hf. injection Hf as Hf.
    apply filter_In. split; [|exact Hf].
    unfold lookup, os_path_join in Hf. rewrite resolve_snoc, R in Hf.
    destruct (bad_name f); [discriminate|].
    destruct (assoc f d) as [x|] eqn:A; [|discriminate].
    apply assoc_in in A. apply in_map_iff. now exists (f, x).
Qed.

(** The recursive listing: the relative paths of all objects below the
    directory that are not directories, regular files or not. *)
Theorem list_files_recursive_spec D fs d :
  wf fs -> good_names (Dir fs) -> lookup fs D = Some (Dir d) ->
  exists l,
    FileSystem.list_files D true fs = (Return l, fs) /\
    forall p, In p l <->
      exists n, lookup fs (D ++ p) = Some n /\ is_dir_node n = false.
Proof.
  intros W G L. exists (rel_files (Dir d)).
  split; [apply (list_files_recursive_run _ _ _ L)|].
  unfold lookup in *. destruct (resolve fs D) as [e|n0] eqn:R; [discriminate|].
  injection L as ->. intros p. rewrite resolve_app, R. split.
  - intros Hin. apply rel_files_sound in Hin.
    + destruct Hin as (n & -> & Hn). eauto.
    + exact (wf_resolve D fs (Dir d) W R).
    + exact (good_names_resolve D fs (Dir d) G R).
  - intros (n & Hr & Hn). destruct (resolve d p) as [e|n'] eqn:Rp; [discriminate|].
    injection Hr as ->. eapply rel_files_complete; eassumption.
Qed.

Lemma fixtures_wf : wf fixtures.
Proof.
  unfold wf, fixtures. cbn [wf_node map fst snd fold_right].
  repeat split;
    repeat (constructor; [cbn; intuition discriminate|]); constructor.
Qed.

Lemma fixtures_good_names : good_names (Dir fixtures).
Proof. unfold fixtures. cbn. repeat split. Qed.

(** In a tree without special objects the recursive listing holds
    regular files only. *)
Lemma list_files_recursive_regular D fs d p :
  wf fs -> good_names (Dir fs) -> lookup fs D = Some (Dir d) ->
  (forall q, lookup fs (D ++ q) <> Some Special) ->
  In p (rel_files (Dir d)) ->
  FileSystem.is_file (D ++ p) fs = (Return true, fs).
Proof.
  intros W G L NS Hin.
  destruct (list_files_recursive_spec D fs d W G L) as (l & Hrun & Hl).
  rewrite (list_files_recursive_run _ _ _ L) in Hrun.
  injection Hrun as <-. apply Hl in Hin. destruct Hin as (n & Hn & Hd).
  rewrite is_file_run, Hn. specialize (NS p).
  destruct n; [reflexivity | congruence | discriminate].
Qed.

(** The listings of [tests/file/fixtures] that [test_list_files]
    expects. *)
Lemma list_files_fixtures :
  FileSystem.list_files fixtures_dir false fixtures
    = (Return [["top_level_text_file.txt"%string]], fixtures) /\
  FileSystem.list_files fixtures_dir true fixtures
    = (Return [["top_level_text_file.txt"];
               ["tex"; "latex2e_example_non_utf8.tex"];
               ["tex"; "latex2e_example.tex"];
               ["tex"; "latex209_example.tex"];
               ["txt"; "non_utf8_sample.txt"];
               ["txt"; "text_file.txt"]]%string, fixtures).
Proof. split; reflexivity. Qed.

(** C1.  The flat listing of a directory holds the regular files
    directly in it, but the recursive listing is not limited to regular
    files: in the directory [/run], which holds a regular file and a
    socket, the flat listing is the regular file alone while the
    recursive listing also returns the socket. *)
Theorem list_files_lists_socket :
  wf fixtures /\
  FileSystem.is_directory run_dir fixtures = (Return true, fixtures) /\
  lookup fixtures (run_dir ++ ["app.sock"%string]) = Some Special /\
  FileSystem.list_files run_dir false fixtures
    = (Return [["app.pid"%string]], fixtures) /\
  FileSystem.list_files run_dir true fixtures
    = (Return [["app.pid"]; ["app.sock"]]%string, fixtures).
Proof.
  split; [exact fixtures_wf|]. repeat split.
Qed.

(** C2.  The round trip fails on a special object: the recursive
    listing of [/run] returns [app.sock], and [is_file] of the joined
    path is [False]. *)
Theorem list_files_roundtrip_socket :
  exists l,
    FileSystem.list_files run_dir true fixtures = (Return l, fixtures) /\
    In ["app.sock"%string] l /\
    FileSystem.is_file (run_dir ++ ["app.sock"%string]) fixtures
      = (Return false, fixtures).
Proof.
  eexists. split; [reflexivity|]. split; [|reflexivity].
  right. left. reflexivity.
Qed.

(* ================================================================== *)
(** * Further properties of the listings *)

(** X1. [list_files] raises [FileNotFoundError] exactly when the path
    is not an existing directory, whatever the flag; on a directory it
    returns a list. *)
Theorem list_files_not_found_iff (fs : filesystem) (D : path) (b : bool) :
  (fst (FileSystem.list_files D b fs) = Raise FileNotFoundError
   <-> FileSystem.is_directory D fs = (Return false, fs))
  /\
  (FileSystem.is_directory D fs = (Return true, fs) ->
   exists l, FileSystem.list_files D b fs = (Return l, fs)).
Proof.
  rewrite is_directory_run.
  destruct (lookup fs D) as [[content mtime| |d]|] eqn:L; cbn [is_dir_node].
  1,2,4: rewrite list_files_not_a_directory by now rewrite L.
  1-3: split; [split; reflexivity | discriminate].
  destruct b.
  - rewrite (list_files_recursive_run _ _ _ L). cbn [fst].
    split; [split; discriminate | eauto].
  - rewrite (list_files_flat_run _ _ _ L). cbn [fst].
    split; [split; discriminate | eauto].
Qed.

Lemma list_files_not_found_iff_witness :
  FileSystem.is_directory fixtures_dir fixtures = (Return true, fixtures) /\
  exists l, FileSystem.list_files fixtures_dir true fixtures = (Return l, fixtures).
Proof.
  split; [reflexivity|].
  apply (proj2 (list_files_not_found_iff fixtures fixtures_dir true)).
  reflexivity.
Defined.

(** X4. Every entry of the flat listing of a directory is an entry of
    its recursive listing. *)
Theorem list_files_flat_in_recursive (fs : filesystem) (D : path) l1 l2 :
  FileSystem.list_files D false fs = (Return l1, fs) ->
  FileSystem.list_files D true fs = (Return l2, fs) ->
  incl l1 l2.
Proof.
  intros H1 H2.
  destruct (lookup fs D) as [[content mtime| |d]|] eqn:L.
  1,2,4: rewrite list_files_not_a_directory in H1 by (now rewrite L);
         discriminate.
  destruct (list_files_flat_spec D fs d L) as (l & Hrun & Hl).
  rewrite Hrun in H1. injection H1 as ->.
  rewrite (list_files_recursive_run _ _ _ L) in H2. injection H2 as <-.
  intros p Hp. apply Hl in Hp. destruct Hp as (f & -> & Hf).
  rewrite is_file_run in Hf. injection Hf as Hf.
  unfold lookup, os_path_join in *. rewrite resolve_snoc in Hf.
  destruct (resolve fs D) as [e|n]; [discriminate|]. injection L as ->.
  destruct (bad_name f) eqn:B; [discriminate|].
  destruct (assoc f d) as [x|] eqn:A; [|discriminate].
  apply (rel_files_complete [f] d x).
  - cbn [resolve]. rewrite B, A. now destruct x.
  - now destruct x.
Qed.

Lemma list_files_flat_in_recursive_witness :
  exists l1 l2,
    FileSystem.list_files fixtures_dir false fixtures = (Return l1, fixtures) /\
    FileSystem.list_files fixtures_dir true fixtures = (Return l2, fixtures) /\
    incl l1 l2.
Proof.
  do 2 eexists. split; [reflexivity|]. split; [reflexivity|].
  apply (list_files_flat_in_recursive fixtures fixtures_dir); reflexivity.
Defined.



(** X2. The flat listing holds exactly the names of the regular files
    directly in the directory: a path is returned if and only if it is
    a single name on which [is_file], joined to the directory, is
    [True]. *)
Theorem list_files_flat_exact (fs : filesystem) (D : path) l :
  FileSystem.list_files D false fs = (Return l, fs) ->
  forall p, In p l <->
    exists f, p = [f] /\
      FileSystem.is_file (os_path_join D f) fs = (Return true, fs).
Proof.
  intros H.
  destruct (lookup fs D) as [[content mtime| |d]|] eqn:L.
  1,2,4: rewrite list_files_not_a_directory in H by (now rewrite L);
         discriminate.
  destruct (list_files_flat_spec D fs d L) as (l' & Hrun & Hl).
  rewrite Hrun in H. injection H as ->. exact Hl.
Qed.

Lemma list_files_flat_exact_witness :
  exists l,
    FileSystem.list_files fixtures_dir false fixtures = (Return l, fixtures) /\
    (In ["top_level_text_file.txt"%string] l <->
     exists f, ["top_level_text_file.txt"%string] = [f] /\
       FileSystem.is_file (os_path_join fixtures_dir f) fixtures
         = (Return true, fixtures)).
Proof.
  eexists. split; [reflexivity|].
  apply (list_files_flat_exact fixtures fixtures_dir). reflexivity.
Defined.





Lemma wf_node_dir es :
  wf_node (Dir es) <->
  NoDup (map fst es) /\ Forall (fun e => wf_node (snd e)) es.
Proof.
  cbn [wf_node]. split; intros [ND W]; (split; [exact ND|]).
  - induction es as [|e es IH]; constructor.
    + now destruct W.
    + apply IH; [now apply NoDup_cons_iff in ND | now destruct W].
  - induction W as [|e es He _ IH]; [exact I|]. split; [exact He|].
    apply IH. now apply NoDup_cons_iff in ND.
Qed.

Lemma NoDup_map_filter {A B} (f : A -> B) (g : A -> bool) l :
  NoDup (map f l) -> NoDup (map f (filter g l)).
Proof.
  induction l as [|a l IH]; [easy|]. cbn. intros ND.
  apply NoDup_cons_iff in ND. destruct ND as [Ha ND].
  destruct (g a); [|auto]. cbn. constructor; [|auto].
  intros Hin. apply Ha. apply in_map_iff in Hin.
  destruct Hin as (x & <- & Hx). apply filter_In in Hx.
  apply in_map. tauto.
Qed.

Lemma NoDup_map_injective {A B} (f : A -> B) l :
  (forall x y, f x = f y -> x = y) -> NoDup l -> NoDup (map f l).
Proof.
  intros Hf. induction 1 as [|a l Ha _ IH]; cbn; constructor; [|exact IH].
  intros Hin. apply in_map_iff in Hin. destruct Hin as (x & E & Hx).
  apply Hf in E. now subst.
Qed.

Lemma NoDup_append {A} (l1 l2 : list A) :
  NoDup l1 -> NoDup l2 -> (forall x, In x l1 -> ~ In x l2) ->
  NoDup (l1 ++ l2).
Proof.
  induction 1 as [|a l1 Ha _ IH]; intros N2 D; [exact N2|].
  cbn. constructor.
  - intros Hin. apply in_app_or in Hin. destruct Hin as [Hin|Hin]; [auto|].
    apply (D a); [now left | exact Hin].
  - apply IH; [exact N2|]. intros x Hx. apply D. now right.
Qed.

Lemma rel_files_nonempty n : ~ In [] (rel_files n).
Proof.
  destruct n as [content mtime| |es]; cbn [rel_files]; try easy.
  intros Hin. apply in_app_or in Hin. destruct Hin as [Hin|Hin].
  - apply in_map_iff in Hin. now destruct Hin as (f & [=] & _).
  - apply in_flat_map in Hin. destruct Hin as (e & _ & Hin).
    apply in_map_iff in Hin. now destruct Hin as (x & [=] & _).
Qed.

Lemma rel_files_NoDup n : wf_node n -> NoDup (rel_files n).
Proof.
  induction n as [content mtime| |es IH] using node_ind_entries;
    intros W; cbn [rel_files]; try constructor.
  apply wf_node_dir in W. destruct W as [ND W].
  apply NoDup_append.
  - apply NoDup_map_injective; [now intros x y [=]|].
    unfold filenames. now apply NoDup_map_filter.
  - clear -IH ND W. induction es as [|[c x] es IHes]; [constructor|].
    cbn [flat_map fst snd map] in *.
    apply NoDup_cons_iff in ND. destruct ND as [Hc ND].
    apply NoDup_append.
    + apply NoDup_map_injective; [now intros p q [=]|].
      apply (Forall_inv IH). exact (Forall_inv W).
    + apply IHes; [exact (Forall_inv_tail IH) | exact ND | exact (Forall_inv_tail W)].
    + intros p Hp Hin. apply in_map_iff in Hp. destruct Hp as (p' & <- & _).
      apply in_flat_map in Hin. destruct Hin as (e & He & Hin).
      apply in_map_iff in Hin. destruct Hin as (p'' & [= E _] & _).
      apply Hc. rewrite <- E. now apply in_map.
  - intros p Hp Hin. apply in_map_iff in Hp. destruct Hp as (f & <- & _).
    apply in_flat_map in Hin. destruct Hin as (e & _ & Hin).
    apply in_map_iff in Hin. destruct Hin as (p' & [= _ ->] & Hp').
    now apply rel_files_nonempty in Hp'.
Qed.

(** X6. In a tree whose directories bind each name once, no path is
    listed twice, in the flat and in the recursive listing. *)
Theorem list_files_no_duplicates (fs : filesystem) (D : path) (b : bool) l :
  wf fs ->
  FileSystem.list_files D b fs = (Return l, fs) ->
  NoDup l.
Proof.
  intros W H.
  destruct (lookup fs D) as [[content mtime| |d]|] eqn:L.
  1,2,4: rewrite list_files_not_a_directory in H by (now rewrite L);
         discriminate.
  assert (Wd : wf_node (Dir d)).
  { unfold lookup in L. destruct (resolve fs D) as [e|n] eqn:R; [discriminate|].
    injection L as ->. exact (wf_resolve D fs _ W R). }
  destruct b.
  - rewrite (list_files_recursive_run _ _ _ L) in H. injection H as <-.
    exact (rel_files_NoDup (Dir d) Wd).
  - rewrite (list_files_flat_run _ _ _ L) in H. injection H as <-.
    apply NoDup_map_injective; [now intros x y [=]|].
    apply NoDup_filter. now apply wf_node_dir in Wd.
Qed.

Lemma list_files_no_duplicates_witness :
  wf fixtures /\
  exists l,
    FileSystem.list_files fixtures_dir true fixtures = (Return l, fixtures) /\
    NoDup l.
Proof.
  split; [exact fixtures_wf|]. eexists. split; [reflexivity|].
  apply (list_files_no_duplicates fixtures fixtures_dir true);
    [exact fixtures_wf | reflexivity].
Defined.

(* ================================================================== *)
(** * Further properties of the mutations *)

(** X8. On every path and state the three predicates return
    booleans that fit together: [is_file] and [is_directory] are never
    both [True], and each of them being [True] makes [is_object]
    [True]. *)
Theorem predicates_consistent (fs : filesystem) (P : path) :
  exists bf bd bo,
    FileSystem.is_file P fs = (Return bf, fs) /\
    FileSystem.is_directory P fs = (Return bd, fs) /\
    FileSystem.is_object P fs = (Return bo, fs) /\
    bf && bd = false /\ implb (bf || bd) bo = true.
Proof.
  rewrite is_file_run, is_directory_run, is_object_run.
  do 3 eexists. repeat split; now destruct (lookup fs P) as [[]|].
Qed.















Lemma is_utf8_encoded_run fs P :
  FileSystem.is_utf8_encoded P fs =
  (match lookup fs P with
   | Some (File content _) =>
       Return match Utf8.utf8_decode (map Utf8.Z_of_byte content) with
              | Some _ => true
              | None => false
              end
   | _ => Raise FileNotFoundError
   end, fs).
Proof.
  unfold FileSystem.is_utf8_encoded. rewrite bind_is_file.
  destruct (lookup fs P) as [[content mtime| |es]|] eqn:L; try reflexivity.
  cbn [is_file_node negb].
  unfold bind, try_except, open_read, FileSystem.bytes_decode_utf8.
  rewrite (lookup_file_resolve _ _ _ _ L).
  now destruct (Utf8.utf8_decode (map Utf8.Z_of_byte content)).
Qed.

Lemma get_file_timestamp_run_any fs P :
  FileSystem.get_file_timestamp P fs =
  (match lookup fs P with
   | Some (File _ mtime) =>
       match Datetime.fromtimestamp_utc
               (Datetime.int_of_float (Datetime.st_mtime_of mtime)) with
       | Return dt => Return (Datetime.isoformat dt)
       | Raise e => Raise e
       end
   | _ => Raise FileNotFoundError
   end, fs).
Proof.
  destruct (lookup fs P) as [[content mtime| |es]|] eqn:L;
    [now apply (get_file_timestamp_run _ _ content) | | |];
    unfold FileSystem.get_file_timestamp; now rewrite bind_is_file, L.
Qed.

(** The regular file at a path, if any. *)
Lemma mkdirs_in_files fs P q :
  resolve fs P = inl FileNotFoundError -> valid_path P = true ->
  match lookup (mkdirs_in fs P) q with
  | Some (File content mtime) => Some (content, mtime)
  | _ => None
  end =
  match lookup fs q with
  | Some (File content mtime) => Some (content, mtime)
  | _ => None
  end.
Proof.
  intros R V. unfold lookup.
  destruct (resolve fs q) as [e|n] eqn:Rq.
  - destruct (resolve (mkdirs_in fs P) q) as [e'|n'] eqn:Rq'; [reflexivity|].
    destruct (mkdirs_in_new P fs q n' Rq') as [[m Hm]|[r Hr]]; [congruence|].
    destruct (mkdirs_in_ancestors P fs q r (or_introl R) V Hr) as [d Hd].
    rewrite Hd in Rq'. now injection Rq' as <-.
  - destruct (mkdirs_in_keeps P fs q n Rq) as (n' & -> & Sh).
    destruct n, n'; cbn in Sh; try discriminate; try reflexivity.
    now injection Sh as -> ->.
Qed.




Lemma assoc_absent_names name es :
  assoc name es = None -> ~ In name (map fst es).
Proof.
  induction es as [|[n x] es IH]; [easy|]. cbn.
  destruct (String.eqb n name) eqn:E; [discriminate|].
  apply String.eqb_neq in E. intros H [|]; [congruence | now apply IH].
Qed.

Lemma set_entry_names name x es : map fst (set_entry name x es) = map fst es.
Proof.
  induction es as [|[n y] es IH]; [reflexivity|]. cbn.
  destruct (String.eqb n name); cbn; [reflexivity | now rewrite IH].
Qed.

Lemma wf_set_entry name x es :
  wf_node (Dir es) -> wf_node x -> wf_node (Dir (set_entry name x es)).
Proof.
  rewrite !wf_node_dir, set_entry_names. intros [ND W] Wx.
  split; [exact ND|]. clear ND.
  induction W as [|[n y] es Hy W IH]; [constructor|]. cbn.
  destruct (String.eqb n name); constructor; auto.
Qed.

Lemma wf_chain p : wf_node (Dir (chain p)).
Proof.
  induction p as [|c p IH]; apply wf_node_dir; cbn.
  - split; constructor.
  - split.
    + constructor; [easy | constructor].
    + constructor; [exact IH | constructor].
Qed.

Lemma wf_mkdirs_in p : forall es,
  wf_node (Dir es) -> wf_node (Dir (mkdirs_in es p)).
Proof.
  induction p as [|c p IH]; intros es W; [exact W|].
  cbn [mkdirs_in]. destruct (assoc c es) as [[content mtime| |es']|] eqn:A;
    try exact W.
  - apply wf_set_entry; [exact W|]. apply IH.
    apply assoc_in in A. exact (wf_node_entry _ _ W A).
  - apply wf_node_dir in W. destruct W as [ND W]. apply wf_node_dir.
    rewrite map_app. cbn. split.
    + apply NoDup_append; [exact ND | constructor; [easy | constructor] |].
      intros x Hx [<-|[]]. now apply (assoc_absent_names _ _ A).
    + apply Forall_app. split; [exact W|].
      constructor; [apply wf_chain | constructor].
Qed.

Lemma wf_del_entry name es :
  wf_node (Dir es) -> wf_node (Dir (del_entry name es)).
Proof.
  rewrite !wf_node_dir. intros [ND W]. unfold del_entry. split.
  - now apply NoDup_map_filter.
  - apply Forall_forall. intros e He. apply filter_In in He.
    rewrite Forall_forall in W. now apply W.
Qed.

Lemma wf_remove_in p : forall es,
  wf_node (Dir es) -> wf_node (Dir (remove_in es p)).
Proof.
  induction p as [|c p IH]; intros es W.
  - apply wf_node_dir. split; constructor.
  - cbn [remove_in]. destruct p as [|c' p]; [now apply wf_del_entry|].
    destruct (assoc c es) as [[content mtime| |es']|] eqn:A; try exact W.
    apply wf_set_entry; [exact W|]. apply IH.
    apply assoc_in in A. exact (wf_node_entry _ _ W A).
Qed.

Lemma wf_mkdir_in p : forall es es',
  wf_node (Dir es) -> mkdir_in es p = inr es' -> wf_node (Dir es').
Proof.
  induction p as [|c p IH]; intros es es' W; [discriminate|].
  cbn [mkdir_in]. destruct (bad_name c); [discriminate|].
  destruct p as [|c' p].
  - destruct (assoc c es) eqn:A; [discriminate|]. intros [= <-].
    apply wf_node_dir in W. destruct W as [ND W]. apply wf_node_dir.
    rewrite map_app. cbn. split.
    + apply NoDup_append; [exact ND | constructor; [easy | constructor] |].
      intros x Hx [<-|[]]. now apply (assoc_absent_names _ _ A).
    + apply Forall_app. split; [exact W|].
      constructor; [apply (wf_chain []) | constructor].
  - destruct (assoc c es) as [[content mtime| |es0]|] eqn:A; try discriminate.
    destruct (mkdir_in es0 (c' :: p)) as [e|es''] eqn:M; [discriminate|].
    intros [= <-]. apply wf_set_entry; [exact W|].
    apply (IH es0); [|exact M].
    apply assoc_in in A. exact (wf_node_entry _ _ W A).
Qed.

Lemma wf_os_mkdir p fs : wf fs -> wf (snd (os_mkdir p fs)).
Proof.
  intros W. unfold os_mkdir. destruct (existsb has_nul p); [exact W|].
  destruct (mkdir_in fs p) as [e|fs'] eqn:M; [exact W|].
  exact (wf_mkdir_in _ _ _ W M).
Qed.

(** [os.makedirs] keeps the tree well formed, however it ends. *)
Lemma wf_makedirs_rev rname : forall fs,
  wf fs -> wf (snd (makedirs_rev rname fs)).
Proof.
  induction rname as [|tail rhead IH]; intros fs W.
  - cbn [makedirs_rev]. now apply wf_os_mkdir.
  - cbn [makedirs_rev]. unfold bind at 1. rewrite os_path_exists_run.
    unfold bind.
    destruct (negb match resolve fs (rev rhead) with
                   | inr _ => true | inl _ => false end).
    + unfold try_except. pose proof (IH fs W) as W'.
      destruct (makedirs_rev rhead fs) as [[[]|e0] s]; cbn [snd] in W'.
      * now apply wf_os_mkdir.
      * destruct e0; cbn [raise ret snd]; try exact W'.
        now apply wf_os_mkdir.
    + cbn [ret]. now apply wf_os_mkdir.
Qed.

(** X13. [create_directory] and [remove_directory] keep the tree
    well formed, however they end: if every directory binds each name
    once before the call, so it does after it. *)
Theorem mutations_keep_wf (fs : filesystem) (P : path) :
  wf fs ->
  wf (snd (FileSystem.create_directory P fs)) /\
  wf (snd (FileSystem.remove_directory P fs)).
Proof.
  intros W. rewrite remove_directory_run. split.
  - destruct (lookup fs P) as [n|] eqn:L.
    + now rewrite (create_directory_exists _ _ _ L).
    + rewrite (create_directory_absent _ _ L).
      pose proof (wf_makedirs_rev (rev P) fs W) as W'.
      now destruct (makedirs_rev (rev P) fs) as [[u|e] s].
  - destruct (lookup fs P) as [[content mtime| |d]|]; cbn [snd]; try exact W.
    destruct P; cbn [snd]; now apply wf_remove_in.
Qed.

Lemma mutations_keep_wf_witness :
  wf fixtures /\
  wf (snd (FileSystem.create_directory new_nested fixtures)) /\
  wf (snd (FileSystem.remove_directory tex_dir fixtures)).
Proof.
  split; [exact fixtures_wf|].
  split; [apply (mutations_keep_wf fixtures new_nested)
         | apply (mutations_keep_wf fixtures tex_dir)]; exact fixtures_wf.
Defined.

(* ================================================================== *)
(** * Further properties of the UTF-8 check and of the timestamp *)

Lemma utf8_decode_ascii s :
  Forall (fun b => b < 128) s -> Utf8.utf8_decode s = Some s.
Proof.
  induction 1 as [|b s Hb _ IH]; [reflexivity|].
  rewrite Utf8Facts.utf8_decode_cons.
  replace (b <? 128) with true by (symmetry; now apply Z.ltb_lt).
  now rewrite IH.
Qed.

(** X16. A regular file all of whose bytes are below 128 (pure
    ASCII, the empty file included) is reported as UTF-8. *)
Theorem is_utf8_encoded_ascii (fs : filesystem) (P : path) content mtime :
  lookup fs P = Some (File content mtime) ->
  Forall (fun b => Utf8.Z_of_byte b < 128) content ->
  FileSystem.is_utf8_encoded P fs = (Return true, fs).
Proof.
  intros L H. rewrite is_utf8_encoded_run, L.
  rewrite utf8_decode_ascii; [reflexivity|].
  apply Forall_forall. intros z Hz. apply in_map_iff in Hz.
  destruct Hz as (b & <- & Hb). rewrite Forall_forall in H. now apply H.
Qed.

Lemma is_utf8_encoded_ascii_witness :
  lookup fixtures text_file = Some (File test_data (3364000001 # 2)) /\
  Forall (fun b => Utf8.Z_of_byte b < 128) test_data /\
  FileSystem.is_utf8_encoded text_file fixtures = (Return true, fixtures).
Proof.
  assert (H : Forall (fun b => Utf8.Z_of_byte b < 128) test_data).
  { unfold test_data. repeat (constructor; [vm_compute; reflexivity|]).
    constructor. }
  split; [reflexivity|]. split; [exact H|].
  apply (is_utf8_encoded_ascii fixtures text_file test_data _ eq_refl H).
Defined.


Lemma encode_char_bytes cp b :
  Utf8.scalar_value cp -> In b (Utf8.encode_char cp) ->
  0 <= b < 192 \/ 194 <= b < 245.
Proof.
  unfold Utf8.scalar_value, Utf8.encode_char. intros Hs.
  split_ifs; bool_to_prop; cbn [In]; intros Hin;
    repeat (destruct Hin as [<-|Hin]; [dlia|]); destruct Hin.
Qed.

(** X17. A regular file that holds, anywhere, one of the bytes C0, C1
    or F5..FF is reported as not UTF-8. *)
Theorem is_utf8_encoded_invalid_byte (fs : filesystem) (P : path)
    content mtime (b : byte) :
  lookup fs P = Some (File content mtime) ->
  In b content ->
  Utf8.Z_of_byte b = 192 \/ Utf8.Z_of_byte b = 193 \/ 245 <= Utf8.Z_of_byte b ->
  FileSystem.is_utf8_encoded P fs = (Return false, fs).
Proof.
  intros L Hb Hbad. rewrite is_utf8_encoded_run, L.
  destruct (Utf8.utf8_decode (map Utf8.Z_of_byte content)) as [text|] eqn:D;
    [|reflexivity].
  exfalso.
  apply (Utf8Facts.encode_decode_bounded (List.length (map Utf8.Z_of_byte content)))
    in D; [|apply le_n|].
  - destruct D as [Hs He].
    assert (Hin : In (Utf8.Z_of_byte b) (Utf8.utf8_encode text)).
    { rewrite He. now apply in_map. }
    unfold Utf8.utf8_encode in Hin. apply in_flat_map in Hin.
    destruct Hin as (cp & Hcp & Hin). rewrite Forall_forall in Hs.
    pose proof (encode_char_bytes cp _ (Hs cp Hcp) Hin). lia.
  - apply Forall_forall. intros z Hz. apply in_map_iff in Hz.
    destruct Hz as (b0 & <- & _). apply Utf8Facts.Z_of_byte_range.
Qed.

Lemma is_utf8_encoded_invalid_byte_witness :
  lookup Samples.samples ["utf16.txt"%string]
    = Some (File Samples.utf16_sample 0%Q) /\
  In xff Samples.utf16_sample /\
  (Utf8.Z_of_byte xff = 192 \/ Utf8.Z_of_byte xff = 193
   \/ 245 <= Utf8.Z_of_byte xff) /\
  FileSystem.is_utf8_encoded ["utf16.txt"%string] Samples.samples
    = (Return false, Samples.samples).
Proof.
  assert (Hin : In xff Samples.utf16_sample) by (left; reflexivity).
  assert (Hbad : Utf8.Z_of_byte xff = 192 \/ Utf8.Z_of_byte xff = 193
                 \/ 245 <= Utf8.Z_of_byte xff).
  { right. right. vm_compute. discriminate. }
  split; [reflexivity|]. split; [exact Hin|]. split; [exact Hbad|].
  apply (is_utf8_encoded_invalid_byte Samples.samples ["utf16.txt"%string]
           Samples.utf16_sample 0%Q xff eq_refl Hin Hbad).
Defined.

(** The truncation is determined by the whole second a time falls in. *)
(** A time that [fromtimestamp] accepts has fewer than 53 bits of
    seconds on disk. *)
Lemma st_mtime_in_range_small mtime :
  Datetime.MIN_TIMESTAMP
    <= Datetime.int_of_float (Datetime.st_mtime_of mtime)
    <= Datetime.MAX_TIMESTAMP ->
  Z.abs (Datetime.tv_sec mtime) < 2 ^ 53.
Proof.
  unfold Datetime.st_mtime_of. rewrite DatetimeFacts.int_of_float_seconds.
  unfold Datetime.MIN_TIMESTAMP, Datetime.MAX_TIMESTAMP.
  pose proof (DatetimeFacts.round53_nsec _ (DatetimeFacts.tv_nsec_bounds mtime))
    as Hr.
  unfold Datetime.float_seconds_num.
  set (sec := Datetime.tv_sec mtime).
  set (r := Datetime.round53 (Datetime.ONE_E_MINUS_9 * Datetime.tv_nsec mtime))
    in *.
  intros Ht.
  destruct (Z_lt_le_dec (Z.abs sec) (2 ^ 53)) as [Hs|Hs]; [exact Hs|].
  exfalso. destruct (Z_le_gt_dec 0 sec) as [H0|H0].
  - assert (H1 : 2 ^ 52 * 2 ^ 1 <= Datetime.round53 sec).
    { apply DatetimeFacts.round53_lower; lia. }
    assert (H2 : 2 ^ 52 * 2 ^ 83
                 <= Datetime.round53 (Datetime.round53 sec * 2 ^ 82 + r)).
    { apply DatetimeFacts.round53_lower; lia. }
    set (n := Datetime.round53 (Datetime.round53 sec * 2 ^ 82 + r)) in *.
    pose proof (Z.quot_rem n (2 ^ 82) ltac:(lia)) as E.
    pose proof (Z.rem_bound_pos n (2 ^ 82) ltac:(lia) ltac:(lia)). lia.
  - assert (H1 : 2 ^ 52 * 2 ^ 1 <= Datetime.round53 (- sec)).
    { apply DatetimeFacts.round53_lower; lia. }
    rewrite DatetimeFacts.round53_opp in H1.
    assert (H2 : (2 ^ 53 - 1) * 2 ^ 82
                 <= Datetime.round53 (- (Datetime.round53 sec * 2 ^ 82 + r))).
    { apply DatetimeFacts.round53_lower; lia. }
    rewrite DatetimeFacts.round53_opp in H2.
    set (n := Datetime.round53 (Datetime.round53 sec * 2 ^ 82 + r)) in *.
    pose proof (Z.quot_rem n (2 ^ 82) ltac:(lia)) as E.
    pose proof (Z.rem_bound_pos_neg n (2 ^ 82) ltac:(lia) ltac:(lia)). lia.
Qed.

(** X19. For a regular file modified between 1970 and the year 2242
    (fewer than [2^33] seconds), at least a microsecond before the end
    of its second, [get_file_timestamp] returns the text of the valid
    UTC date and time of the whole second the modification falls in:
    the sub-second part is discarded.  Later in the second the float
    of [os.stat] can round up to the next second, and in general the
    time converted is the second of the modification or the next
    one. *)
Theorem get_file_timestamp_whole_seconds (fs : filesystem) (P : path)
    content mtime :
  lookup fs P = Some (File content mtime) ->
  (0 <= Datetime.tv_sec mtime < 2 ^ 33 ->
   Datetime.tv_nsec mtime <= 999999000 ->
   exists dt,
     FileSystem.get_file_timestamp P fs
       = (Return (Datetime.isoformat dt), fs) /\
     Datetime.valid_datetime dt /\
     Datetime.timegm dt = Datetime.tv_sec mtime)
  /\
  (forall text,
     FileSystem.get_file_timestamp P fs = (Return text, fs) ->
     exists dt,
       text = Datetime.isoformat dt /\ Datetime.valid_datetime dt /\
       (Datetime.timegm dt = Datetime.tv_sec mtime \/
        Datetime.timegm dt = Datetime.tv_sec mtime + 1)).
Proof.
  intros L. rewrite (get_file_timestamp_run _ _ _ _ L). split.
  - intros Hs Hn. rewrite (DatetimeFacts.int_of_st_mtime_exact _ Hs Hn).
    destruct (DatetimeFacts.fromtimestamp_utc_in_range (Datetime.tv_sec mtime))
      as (dt & -> & V & T).
    { unfold Datetime.MIN_TIMESTAMP, Datetime.MAX_TIMESTAMP. lia. }
    eauto.
  - intros text.
    set (t := Datetime.int_of_float (Datetime.st_mtime_of mtime)).
    destruct (Z_le_dec Datetime.MIN_TIMESTAMP t) as [Hl|Hl];
      [destruct (Z_le_dec t Datetime.MAX_TIMESTAMP) as [Hu|Hu]|].
    + destruct (DatetimeFacts.fromtimestamp_utc_in_range t (conj Hl Hu))
        as (dt & -> & V & T).
      intros [= <-]. exists dt. split; [reflexivity|]. split; [exact V|].
      pose proof (DatetimeFacts.int_of_st_mtime_bounds mtime
                    (st_mtime_in_range_small mtime (conj Hl Hu))) as B.
      fold t in B. lia.
    + destruct (DatetimeFacts.fromtimestamp_utc_out_of_range t)
        as (e & -> & _); [lia | discriminate].
    + destruct (DatetimeFacts.fromtimestamp_utc_out_of_range t)
        as (e & -> & _); [lia | discriminate].
Qed.

Lemma get_file_timestamp_whole_seconds_witness :
  lookup fixtures text_file = Some (File test_data (3364000001 # 2)) /\
  0 <= Datetime.tv_sec (3364000001 # 2) < 2 ^ 33 /\
  Datetime.tv_nsec (3364000001 # 2) <= 999999000 /\
  Datetime.tv_sec (3364000001 # 2) = 1682000000 /\
  exists dt,
    FileSystem.get_file_timestamp text_file fixtures
      = (Return (Datetime.isoformat dt), fixtures) /\
    Datetime.valid_datetime dt /\
    Datetime.timegm dt = Datetime.tv_sec (3364000001 # 2).
Proof.
  assert (Hs : 0 <= Datetime.tv_sec (3364000001 # 2) < 2 ^ 33).
  { change (Datetime.tv_sec (3364000001 # 2)) with 1682000000. lia. }
  assert (Hn : Datetime.tv_nsec (3364000001 # 2) <= 999999000).
  { change (Datetime.tv_nsec (3364000001 # 2)) with 500000000. lia. }
  split; [reflexivity|]. split; [exact Hs|]. split; [exact Hn|].
  split; [reflexivity|].
  exact (proj1 (get_file_timestamp_whole_seconds fixtures text_file
                  test_data (3364000001 # 2) eq_refl) Hs Hn).
Defined.


Lemma isoformat_shape dt :
  String.length (Datetime.isoformat dt) = 25%nat /\
  String.substring 19 6 (Datetime.isoformat dt) = "+00:00"%string /\
  String.get 4 (Datetime.isoformat dt) = Some "-"%char /\
  String.get 7 (Datetime.isoformat dt) = Some "-"%char /\
  String.get 10 (Datetime.isoformat dt) = Some "T"%char /\
  String.get 13 (Datetime.isoformat dt) = Some ":"%char /\
  String.get 16 (Datetime.isoformat dt) = Some ":"%char.
Proof.
  unfold Datetime.isoformat, Datetime.pad4, Datetime.pad2, Datetime.digit.
  cbn [String.append]. repeat split.
Qed.

Lemma digit_char_inj a b :
  0 <= a < 10 -> 0 <= b < 10 ->
  ascii_of_N (48 + Z.to_N a) = ascii_of_N (48 + Z.to_N b) -> a = b.
Proof.
  intros Ha Hb E. apply (f_equal N_of_ascii) in E.
  rewrite !N_ascii_embedding in E by lia. lia.
Qed.

Lemma two_digits_inj a b :
  0 <= a < 100 -> 0 <= b < 100 ->
  ascii_of_N (48 + Z.to_N (a / 10)) = ascii_of_N (48 + Z.to_N (b / 10)) ->
  ascii_of_N (48 + Z.to_N (a mod 10)) = ascii_of_N (48 + Z.to_N (b mod 10)) ->
  a = b.
Proof.
  intros Ha Hb E1 E0.
  apply digit_char_inj in E1; [|dlia|dlia].
  apply digit_char_inj in E0; [|dlia|dlia]. dlia.
Qed.

Lemma four_digits_inj a b :
  0 <= a < 10000 -> 0 <= b < 10000 ->
  ascii_of_N (48 + Z.to_N (a / 1000)) = ascii_of_N (48 + Z.to_N (b / 1000)) ->
  ascii_of_N (48 + Z.to_N ((a / 100) mod 10))
    = ascii_of_N (48 + Z.to_N ((b / 100) mod 10)) ->
  ascii_of_N (48 + Z.to_N ((a / 10) mod 10))
    = ascii_of_N (48 + Z.to_N ((b / 10) mod 10)) ->
  ascii_of_N (48 + Z.to_N (a mod 10)) = ascii_of_N (48 + Z.to_N (b mod 10)) ->
  a = b.
Proof.
  intros Ha Hb E3 E2 E1 E0.
  apply digit_char_inj in E3; [|dlia|dlia].
  apply digit_char_inj in E2; [|dlia|dlia].
  apply digit_char_inj in E1; [|dlia|dlia].
  apply digit_char_inj in E0; [|dlia|dlia]. dlia.
Qed.

Lemma days_in_month_le_31 y m :
  1 <= m <= 12 -> Datetime.days_in_month y m <= 31.
Proof.
  intros Hm. unfold Datetime.days_in_month.
  assert (C : m = 1 \/ m = 2 \/ m = 3 \/ m = 4 \/ m = 5 \/ m = 6 \/ m = 7
              \/ m = 8 \/ m = 9 \/ m = 10 \/ m = 11 \/ m = 12) by lia.
  destruct (Datetime.is_leap y);
    repeat (destruct C as [->|C]; [cbn; lia|]); subst; cbn; lia.
Qed.

(** Distinct valid dates and times have distinct texts. *)
Lemma isoformat_injective dt1 dt2 :
  Datetime.valid_datetime dt1 -> Datetime.valid_datetime dt2 ->
  Datetime.isoformat dt1 = Datetime.isoformat dt2 -> dt1 = dt2.
Proof.
  destruct dt1 as [y1 m1 d1 h1 mi1 s1], dt2 as [y2 m2 d2 h2 mi2 s2].
  unfold Datetime.valid_datetime, Datetime.MINYEAR, Datetime.MAXYEAR.
  cbn [Datetime.year Datetime.month Datetime.day Datetime.hour
       Datetime.minute Datetime.second].
  intros (Hy1 & Hm1 & Hd1 & Hh1 & Hmi1 & Hs1)
         (Hy2 & Hm2 & Hd2 & Hh2 & Hmi2 & Hs2).
  pose proof (days_in_month_le_31 y1 m1 Hm1) as Dim1.
  pose proof (days_in_month_le_31 y2 m2 Hm2) as Dim2.
  unfold Datetime.isoformat, Datetime.pad4, Datetime.pad2, Datetime.digit.
  cbn [Datetime.year Datetime.month Datetime.day Datetime.hour
       Datetime.minute Datetime.second String.append].
  intros E.
  injection E as Y3 Y2 Y1 Y0 M1 M0 D1 D0 HH1 HH0 MI1 MI0 S1 S0.
  f_equal.
  - apply four_digits_inj; (assumption || lia).
  - apply two_digits_inj; (assumption || lia).
  - apply two_digits_inj; (assumption || lia).
  - apply two_digits_inj; (assumption || lia).
  - apply two_digits_inj; (assumption || lia).
  - apply two_digits_inj; (assumption || lia).
Qed.

Lemma get_file_timestamp_returns fs P content mtime text :
  lookup fs P = Some (File content mtime) ->
  FileSystem.get_file_timestamp P fs = (Return text, fs) ->
  exists dt, text = Datetime.isoformat dt /\ Datetime.valid_datetime dt /\
             Datetime.timegm dt
             = Datetime.int_of_float (Datetime.st_mtime_of mtime) /\
             Datetime.MIN_TIMESTAMP <= Datetime.timegm dt
               <= Datetime.MAX_TIMESTAMP.
Proof.
  intros L. rewrite (get_file_timestamp_run _ _ _ _ L).
  set (t := Datetime.int_of_float (Datetime.st_mtime_of mtime)).
  destruct (Z_le_dec Datetime.MIN_TIMESTAMP t) as [Hl|Hl];
    [destruct (Z_le_dec t Datetime.MAX_TIMESTAMP) as [Hu|Hu]|].
  - destruct (DatetimeFacts.fromtimestamp_utc_in_range t (conj Hl Hu))
      as (dt & -> & V & T).
    intros [= <-]. exists dt. rewrite T. auto.
  - destruct (DatetimeFacts.fromtimestamp_utc_out_of_range t)
      as (e & -> & _); [lia | discriminate].
  - destruct (DatetimeFacts.fromtimestamp_utc_out_of_range t)
      as (e & -> & _); [lia | discriminate].
Qed.

(** X20. A text returned by [get_file_timestamp] always has 25
    characters, laid out as YYYY-MM-DDTHH:MM:SS+00:00: dashes at
    positions 4 and 7, T at 10, colons at 13 and 16, and the UTC offset
    ["+00:00"] at the end. *)
Theorem get_file_timestamp_shape (fs : filesystem) (P : path) text :
  FileSystem.get_file_timestamp P fs = (Return text, fs) ->
  String.length text = 25%nat /\
  String.substring 19 6 text = "+00:00"%string /\
  String.get 4 text = Some "-"%char /\
  String.get 7 text = Some "-"%char /\
  String.get 10 text = Some "T"%char /\
  String.get 13 text = Some ":"%char /\
  String.get 16 text = Some ":"%char.
Proof.
  rewrite get_file_timestamp_run_any.
  destruct (lookup fs P) as [[content mtime| |d]|]; try discriminate.
  destruct (Datetime.fromtimestamp_utc _) as [dt|e]; [|discriminate].
  intros [= <-]. apply isoformat_shape.
Qed.

Lemma get_file_timestamp_shape_witness :
  exists text,
    FileSystem.get_file_timestamp text_file fixtures = (Return text, fixtures) /\
    String.length text = 25%nat /\
    String.substring 19 6 text = "+00:00"%string.
Proof.
  assert (H : FileSystem.get_file_timestamp text_file fixtures
              = (Return "2023-04-20T14:13:20+00:00"%string, fixtures))
    by (vm_compute; reflexivity).
  eexists. split; [exact H|].
  destruct (get_file_timestamp_shape fixtures text_file _ H)
    as (Hlen & Hoff & _).
  split; [exact Hlen | exact Hoff].
Defined.


(** X21. The text identifies the second up to the rounding of
    [os.stat]: two regular files for which [get_file_timestamp]
    returns the same text have float modification times that truncate
    to the same whole second, and their times on disk lie in the same
    second or in two adjacent seconds. *)
Theorem get_file_timestamp_injective (fs1 fs2 : filesystem) (P1 P2 : path)
    c1 m1 c2 m2 text :
  lookup fs1 P1 = Some (File c1 m1) ->
  lookup fs2 P2 = Some (File c2 m2) ->
  FileSystem.get_file_timestamp P1 fs1 = (Return text, fs1) ->
  FileSystem.get_file_timestamp P2 fs2 = (Return text, fs2) ->
  Datetime.int_of_float (Datetime.st_mtime_of m1)
  = Datetime.int_of_float (Datetime.st_mtime_of m2)
  /\ Z.abs (Datetime.tv_sec m1 - Datetime.tv_sec m2) <= 1.
Proof.
  intros L1 L2 H1 H2.
  destruct (get_file_timestamp_returns _ _ _ _ _ L1 H1)
    as (dt1 & E1 & V1 & T1 & B1).
  destruct (get_file_timestamp_returns _ _ _ _ _ L2 H2)
    as (dt2 & E2 & V2 & T2 & B2).
  assert (E : dt1 = dt2) by (apply isoformat_injective; congruence).
  subst dt2. rewrite T1 in B1. rewrite T2 in B2.
  pose proof (DatetimeFacts.int_of_st_mtime_bounds m1
                (st_mtime_in_range_small m1 B1)) as I1.
  pose proof (DatetimeFacts.int_of_st_mtime_bounds m2
                (st_mtime_in_range_small m2 B2)) as I2.
  split; [congruence | lia].
Qed.

Lemma get_file_timestamp_injective_witness :
  lookup Samples.clock ["late_2023.log"%string]
    = Some (File [] Samples.late_2023) /\
  lookup Samples.clock ["next_2023.log"%string]
    = Some (File [] Samples.next_2023) /\
  FileSystem.get_file_timestamp ["late_2023.log"%string] Samples.clock
    = (Return "2023-04-20T14:13:21+00:00"%string, Samples.clock) /\
  FileSystem.get_file_timestamp ["next_2023.log"%string] Samples.clock
    = (Return "2023-04-20T14:13:21+00:00"%string, Samples.clock) /\
  Datetime.tv_sec Samples.late_2023 = 1682000000 /\
  Datetime.tv_sec Samples.next_2023 = 1682000001 /\
  Datetime.int_of_float (Datetime.st_mtime_of Samples.late_2023)
    = Datetime.int_of_float (Datetime.st_mtime_of Samples.next_2023) /\
  Z.abs (Datetime.tv_sec Samples.late_2023 - Datetime.tv_sec Samples.next_2023)
    <= 1.
Proof.
  assert (H1 : FileSystem.get_file_timestamp ["late_2023.log"%string]
                 Samples.clock
               = (Return "2023-04-20T14:13:21+00:00"%string, Samples.clock))
    by (vm_compute; reflexivity).
  assert (H2 : FileSystem.get_file_timestamp ["next_2023.log"%string]
                 Samples.clock
               = (Return "2023-04-20T14:13:21+00:00"%string, Samples.clock))
    by (vm_compute; reflexivity).
  split; [reflexivity|]. split; [reflexivity|].
  split; [exact H1|]. split; [exact H2|].
  split; [vm_compute; reflexivity|]. split; [vm_compute; reflexivity|].
  exact (get_file_timestamp_injective Samples.clock Samples.clock
           ["late_2023.log"%string] ["next_2023.log"%string]
           [] Samples.late_2023 [] Samples.next_2023 _
           eq_refl eq_refl H1 H2).
Defined.


(* ================================================================== *)
(** * Listings across mutations *)

(** Every encoded character ends in a byte below C0. *)
Lemma encode_char_last cp :
  Utf8.scalar_value cp -> last (Utf8.encode_char cp) 0 < 192.
Proof.
  unfold Utf8.scalar_value, Utf8.encode_char. intros Hs.
  split_ifs; bool_to_prop; cbn [last]; dlia.
Qed.

Lemma encode_char_nonempty cp : Utf8.encode_char cp <> [].
Proof. unfold Utf8.encode_char. now split_ifs. Qed.

Lemma last_app_nonempty {A} (l l' : list A) d :
  l' <> [] -> last (l ++ l') d = last l' d.
Proof.
  intros H. induction l as [|a l IH]; [reflexivity|].
  cbn [app]. destruct (l ++ l') eqn:E.
  - apply app_eq_nil in E. now destruct E.
  - exact IH.
Qed.

Lemma utf8_encode_last cps :
  Forall Utf8.scalar_value cps -> cps <> [] ->
  last (Utf8.utf8_encode cps) 0 < 192.
Proof.
  intros Hs Hne. destruct (exists_last Hne) as (cps' & cp & ->).
  unfold Utf8.utf8_encode. rewrite flat_map_app. cbn [flat_map].
  rewrite app_nil_r, last_app_nonempty by apply encode_char_nonempty.
  apply encode_char_last. apply Forall_app in Hs. destruct Hs as [_ Hs].
  exact (Forall_inv Hs).
Qed.

(** X18. A regular file whose last byte is C0 or above, as when the
    content is cut in the middle of a multi-byte character, is reported
    as not UTF-8. *)
Theorem is_utf8_encoded_cut (fs : filesystem) (P : path) content mtime :
  lookup fs P = Some (File content mtime) ->
  192 <= last (map Utf8.Z_of_byte content) 0 ->
  FileSystem.is_utf8_encoded P fs = (Return false, fs).
Proof.
  intros L Hlast. rewrite is_utf8_encoded_run, L.
  destruct (Utf8.utf8_decode (map Utf8.Z_of_byte content)) as [text|] eqn:D;
    [|reflexivity].
  exfalso.
  apply (Utf8Facts.encode_decode_bounded
           (List.length (map Utf8.Z_of_byte content))) in D; [|apply le_n|].
  - destruct D as [Hs He]. rewrite <- He in Hlast.
    destruct text as [|cp text]; [cbn in Hlast; lia|].
    pose proof (utf8_encode_last (cp :: text) Hs ltac:(discriminate)). lia.
  - apply Forall_forall. intros z Hz. apply in_map_iff in Hz.
    destruct Hz as (b0 & <- & _). apply Utf8Facts.Z_of_byte_range.
Qed.

Lemma is_utf8_encoded_cut_witness :
  lookup Samples.samples ["cut.txt"%string]
    = Some (File Samples.cut_sample 0%Q) /\
  192 <= last (map Utf8.Z_of_byte Samples.cut_sample) 0 /\
  FileSystem.is_utf8_encoded ["cut.txt"%string] Samples.samples
    = (Return false, Samples.samples).
Proof.
  assert (H : 192 <= last (map Utf8.Z_of_byte Samples.cut_sample) 0).
  { vm_compute. discriminate. }
  split; [reflexivity|]. split; [exact H|].
  apply (is_utf8_encoded_cut Samples.samples ["cut.txt"%string]
           Samples.cut_sample 0%Q eq_refl H).
Defined.


(** Objects that are not directories are the same before and after
    [mkdirs_in]. *)
Lemma good_names_dir es :
  good_names (Dir es) <->
  Forall (fun e => bad_name (fst e) = false /\ good_names (snd e)) es.
Proof.
  cbn [good_names]. split.
  - induction es as [|e es IH]; constructor.
    + destruct H as (B & G & _). now split.
    + apply IH. now destruct H as (_ & _ & H).
  - induction 1 as [|e es [B G] _ IH]; [exact I|]. now repeat split.
Qed.

Lemma good_names_set_entry name x es :
  good_names (Dir es) -> good_names x ->
  good_names (Dir (set_entry name x es)).
Proof.
  rewrite !good_names_dir. intros G Gx.
  induction G as [|[n y] es [B Gy] G IH]; [constructor|]. cbn.
  destruct (String.eqb n name); constructor; auto.
Qed.

Lemma good_names_chain p : valid_path p = true -> good_names (Dir (chain p)).
Proof.
  induction p as [|c p IH]; intros V; [exact I|].
  apply valid_path_cons in V. destruct V as [B V].
  cbn [chain]. apply good_names_dir. constructor; [|constructor].
  cbn [fst snd]. split; [exact B | exact (IH V)].
Qed.

Lemma good_names_mkdirs_in p : forall es,
  valid_path p = true ->
  good_names (Dir es) -> good_names (Dir (mkdirs_in es p)).
Proof.
  induction p as [|c p IH]; intros es V G; [exact G|].
  apply valid_path_cons in V. destruct V as [B V].
  cbn [mkdirs_in]. destruct (assoc c es) as [[content mtime| |es']|] eqn:A;
    try exact G.
  - apply good_names_set_entry; [exact G|]. apply IH; [exact V|].
    apply assoc_in in A. exact (proj2 (good_names_entry _ _ G A)).
  - apply good_names_dir. apply Forall_app. split.
    + now apply good_names_dir.
    + constructor; [|constructor]. cbn [fst snd].
      split; [exact B | exact (good_names_chain _ V)].
Qed.


Lemma mkdirs_in_leaves fs P q n :
  resolve fs P = inl FileNotFoundError -> valid_path P = true ->
  is_dir_node n = false ->
  (lookup (mkdirs_in fs P) q = Some n <-> lookup fs q = Some n).
Proof.
  intros R V Hn. unfold lookup. split.
  - destruct (resolve (mkdirs_in fs P) q) as [e'|n'] eqn:Rq'; [discriminate|].
    intros [= ->].
    destruct (mkdirs_in_new P fs q n Rq') as [[m Hm]|[r Hr]].
    + destruct (mkdirs_in_keeps P fs q m Hm) as (n' & Hn' & Sh).
      rewrite Hm. rewrite Hn' in Rq'. injection Rq' as ->.
      destruct n, m; cbn in *; congruence.
    + destruct (mkdirs_in_ancestors P fs q r (or_introl R) V Hr) as [d Hd].
      rewrite Hd in Rq'. injection Rq' as <-. discriminate.
  - destruct (resolve fs q) as [e|m] eqn:Rq; [discriminate|]. intros [= ->].
    destruct (mkdirs_in_keeps P fs q n Rq) as (n' & -> & Sh).
    destruct n, n'; cbn in *; congruence.
Qed.

Lemma mkdirs_in_dirs fs P q d :
  lookup fs q = Some (Dir d) ->
  exists d', lookup (mkdirs_in fs P) q = Some (Dir d').
Proof.
  unfold lookup. destruct (resolve fs q) as [e|n] eqn:Rq; [discriminate|].
  intros [= ->]. destruct (mkdirs_in_keeps P fs q _ Rq) as (n' & -> & Sh).
  destruct n'; cbn in Sh; try discriminate. eauto.
Qed.

(** X14. In a tree without symbolic links, whose directories bind each
    name once and bind only names an object can have, a
    [create_directory] that returns changes no listing: where
    [list_files] returned before, it returns after, with the same
    entries. *)
Theorem create_directory_keeps_listings (fs fs' : filesystem) (P D : path)
    (b : bool) l :
  wf fs -> good_names (Dir fs) ->
  FileSystem.create_directory P fs = (Return tt, fs') ->
  FileSystem.list_files D b fs = (Return l, fs) ->
  exists l',
    FileSystem.list_files D b fs' = (Return l', fs') /\
    forall p, In p l' <-> In p l.
Proof.
  intros W G E. destruct (create_directory_returns _ _ _ _ E) as (R & V & ->).
  clear E. intros H.
  destruct (lookup fs D) as [[content mtime| |d]|] eqn:L.
  1,2,4: rewrite list_files_not_a_directory in H by (now rewrite L);
         discriminate.
  destruct (mkdirs_in_dirs fs P D d L) as [d' L'].
  assert (W' : wf (mkdirs_in fs P)) by now apply wf_mkdirs_in.
  assert (G' : good_names (Dir (mkdirs_in fs P)))
    by now apply good_names_mkdirs_in.
  destruct b.
  - destruct (list_files_recursive_spec D fs d W G L) as (l0 & Hrun & Hl).
    destruct (list_files_recursive_spec D _ d' W' G' L')
      as (l' & Hrun' & Hl').
    rewrite Hrun in H. injection H as ->.
    exists l'. split; [exact Hrun'|]. intros p. rewrite Hl, Hl'.
    split; intros (n & Hn & Hd); exists n; (split; [|exact Hd]);
      now apply (mkdirs_in_leaves fs P (D ++ p) n R V Hd).
  - destruct (list_files_flat_spec D fs d L) as (l0 & Hrun & Hl).
    destruct (list_files_flat_spec D _ d' L') as (l' & Hrun' & Hl').
    rewrite Hrun in H. injection H as ->.
    exists l'. split; [exact Hrun'|]. intros p. rewrite Hl, Hl'.
    pose proof (fun f => mkdirs_in_files fs P (os_path_join D f) R V) as F.
    split; intros (f & -> & Hf); exists f; (split; [reflexivity|]);
      rewrite is_file_run in *; specialize (F f);
      destruct (lookup (mkdirs_in fs P) (os_path_join D f)) as [[]|],
               (lookup fs (os_path_join D f)) as [[]|];
      try discriminate; try reflexivity; exact Hf.
Qed.

Lemma create_directory_keeps_listings_witness :
  wf fixtures /\ good_names (Dir fixtures) /\
  exists fs' l,
    FileSystem.create_directory new_nested fixtures = (Return tt, fs') /\
    FileSystem.list_files fixtures_dir true fixtures = (Return l, fixtures) /\
    exists l',
      FileSystem.list_files fixtures_dir true fs' = (Return l', fs') /\
      forall p, In p l' <-> In p l.
Proof.
  split; [exact fixtures_wf|]. split; [exact fixtures_good_names|].
  do 2 eexists. split; [reflexivity|]. split; [reflexivity|].
  apply (create_directory_keeps_listings fixtures _ new_nested fixtures_dir
           true _ fixtures_wf fixtures_good_names eq_refl eq_refl).
Defined.







(* ================================================================== *)
(** * The test fixture directory *)

Import Conftest.

Lemma climb_found a b : forall fuel,
  (List.length b < fuel)%nat ->
  ~ In "tests"%string b ->
  climb fuel (a ++ "tests"%string :: b)
  = Some (FixtureDir (a ++ ["tests"; "file"; "fixtures"]%string)).
Proof.
  induction b as [|c b IH] using rev_ind; intros fuel Hf Hb.
  - destruct fuel; [cbn in Hf; lia|]. cbn [climb].
    unfold os_path_basename. rewrite last_last. cbn.
    now rewrite <- app_assoc.
  - destruct fuel; [cbn in Hf; lia|]. cbn [climb].
    unfold os_path_basename, os_path_dirname.
    rewrite app_comm_cons, app_assoc, last_last, removelast_last.
    destruct (String.eqb c "tests") eqn:E.
    + apply String.eqb_eq in E. subst c. destruct Hb. apply in_or_app.
      right. now left.
    + destruct (list_eq_dec string_dec _ _) as [Heq|_].
      * apply (f_equal (@List.length string)) in Heq.
        rewrite !length_app in Heq. cbn in Heq. lia.
      * apply IH.
        -- rewrite length_app in Hf. cbn in Hf. lia.
        -- intros Hin. apply Hb. apply in_or_app. now left.
Qed.

Lemma climb_not_found here : forall fuel,
  (List.length here < fuel)%nat ->
  ~ In "tests"%string here ->
  climb fuel here = Some RuntimeError.
Proof.
  induction here as [|c here IH] using rev_ind; intros fuel Hf Hh.
  - destruct fuel; [cbn in Hf; lia|]. reflexivity.
  - destruct fuel; [cbn in Hf; lia|]. cbn [climb].
    unfold os_path_basename, os_path_dirname.
    rewrite last_last, removelast_last.
    destruct (String.eqb c "tests") eqn:E.
    + apply String.eqb_eq in E. subst c. destruct Hh. apply in_or_app.
      right. now left.
    + destruct (list_eq_dec string_dec _ _) as [Heq|_].
      * apply (f_equal (@List.length string)) in Heq.
        rewrite !length_app in Heq. cbn in Heq. lia.
      * apply IH.
        -- rewrite length_app in Hf. cbn in Hf. lia.
        -- intros Hin. apply Hh. apply in_or_app. now left.
Qed.

(** X22. Started in a directory with a component named [tests], the
    fixture returns [file/fixtures] below the nearest enclosing
    [tests] directory (the last such component). *)
Theorem fixtures_directory_found (a b : path) :
  ~ In "tests"%string b ->
  file_test_fixtures_directory (a ++ "tests"%string :: b)
  = Some (FixtureDir (a ++ ["tests"; "file"; "fixtures"]%string)).
Proof.
  intros Hb. unfold file_test_fixtures_directory. apply climb_found; [|exact Hb].
  rewrite length_app. cbn. lia.
Qed.

Lemma fixtures_directory_found_witness :
  ~ In "tests"%string ["file"%string] /\
  file_test_fixtures_directory
    (["home"; "tests"; "repo"]%string ++ "tests"%string :: ["file"%string])
  = Some (FixtureDir
            (["home"; "tests"; "repo"]%string
             ++ ["tests"; "file"; "fixtures"]%string)).
Proof.
  assert (H : ~ In "tests"%string ["file"%string]).
  { intros [E|[]]. discriminate E. }
  split; [exact H|]. apply fixtures_directory_found. exact H.
Defined.

(** X23. The fixture raises [RuntimeError] exactly when no component
    of the starting directory is named [tests], and its loop always
    ends. *)
Theorem fixtures_directory_not_found (here : path) :
  (file_test_fixtures_directory here = Some RuntimeError
   <-> ~ In "tests"%string here)
  /\ file_test_fixtures_directory here <> None.
Proof.
  assert (C : (exists a b, here = a ++ "tests"%string :: b
                           /\ ~ In "tests"%string b)
              \/ ~ In "tests"%string here).
  { induction here as [|c here IH]; [right; easy|].
    destruct IH as [(a & b & -> & Hb)|Hn].
    - left. exists (c :: a), b. now split.
    - destruct (string_dec c "tests") as [->|Hc].
      + left. exists [], here. now split.
      + right. intros [E|Hin]; [congruence | contradiction]. }
  destruct C as [(a & b & -> & Hb)|Hn].
  - unfold file_test_fixtures_directory.
    rewrite (climb_found a b); [|rewrite length_app; cbn; lia | exact Hb].
    split; [|discriminate].
    split; [discriminate|]. intros Hn. destruct Hn. apply in_or_app.
    right. now left.
  - unfold file_test_fixtures_directory.
    rewrite (climb_not_found here _ (Nat.lt_succ_diag_r _) Hn).
    split; [tauto | discriminate].
Qed.
